(** * Lab Image Batcher: the sizing, parsing and grid-layout core of [app.py]

    A shallow embedding of the pure functions of [src/app.py]
    ([parse_size], [resize_by_long_or_short], [resize_to_box]) and of the
    script blocks that read the two size text fields and build the contact
    sheet, followed by the properties of the specification.

    Python values are modelled as follows.
    - [int] is [Z]; [//] and [%] are [Z.div] and [Z.modulo] (both floor).
    - [float] is an IEEE-754 binary64 number, [spec_float] with precision 53
      and maximal exponent 1024; [int / int] is the correctly rounded
      quotient, [int * float] converts the integer first.
    - [str] is the UTF-8 byte string; case, white space and digits are those
      of the ASCII range.
    - an exception is a value of [exn]; a function that can raise returns a
      [result]. *)

From Stdlib Require Import ZArith List String Ascii Bool Lia.
From Stdlib Require Import Floats.SpecFloat.
From Stdlib Require Import DecimalString DecimalN DecimalPos.
Import ListNotations.

Local Open Scope string_scope.
Local Open Scope Z_scope.

(* ===================================================================== *)
(** * Python: exceptions and the error monad                              *)
(* ===================================================================== *)

Inductive exn : Type :=
| ValueError (msg : string)
| ZeroDivisionError (msg : string)
| OverflowError (msg : string).

Inductive result (A : Type) : Type :=
| OK (a : A)
| Raise (e : exn).

Arguments OK {A} a.
Arguments Raise {A} e.

Definition bind {A B : Type} (r : result A) (k : A -> result B) : result B :=
  match r with
  | OK a => k a
  | Raise e => Raise e
  end.

Notation "x <- c ;; k" := (bind c (fun x => k))
  (at level 61, c at next level, right associativity).

(** [str(e)] of an exception: its message. *)
Definition str_of_exn (e : exn) : string :=
  match e with
  | ValueError m => m
  | ZeroDivisionError m => m
  | OverflowError m => m
  end.

(* ===================================================================== *)
(** * Python: strings                                                     *)
(* ===================================================================== *)

Definition code (c : ascii) : Z := Z.of_N (N_of_ascii c).

Definition is_digit (c : ascii) : bool := (48 <=? code c) && (code c <=? 57).

Definition digit_val (c : ascii) : Z := code c - 48.

(** White space of [str.strip] in the ASCII range: TAB..CR, FS..US, SPACE. *)
Definition is_space (c : ascii) : bool :=
  ((9 <=? code c) && (code c <=? 13)) || ((28 <=? code c) && (code c <=? 32)).

Definition lower_char (c : ascii) : ascii :=
  if (65 <=? code c) && (code c <=? 90)
  then ascii_of_N (N_of_ascii c + 32)
  else c.

(** [s.lower()] *)
Fixpoint lower (s : string) : string :=
  match s with
  | EmptyString => EmptyString
  | String c tl => String (lower_char c) (lower tl)
  end.

(** [s.replace(old, new)] for a non-empty [old]: the occurrences are taken
    from left to right and do not overlap; [skip] counts the characters of
    a matched occurrence still to be dropped. *)
Fixpoint replace_go (old new : string) (skip : nat) (s : string) : string :=
  match s with
  | EmptyString => EmptyString
  | String c tl =>
      match skip with
      | S k => replace_go old new k tl
      | O =>
          if prefix old s
          then new ++ replace_go old new (pred (length old)) tl
          else String c (replace_go old new O tl)
      end
  end.

Definition replace (old new s : string) : string := replace_go old new O s.

(** [s.split(sep)] for a non-empty [sep]; [cur] is the part being read. *)
Fixpoint split_go (sep : string) (skip : nat) (cur : string) (s : string)
  : list string :=
  match s with
  | EmptyString => [cur]
  | String c tl =>
      match skip with
      | S k => split_go sep k cur tl
      | O =>
          if prefix sep s
          then cur :: split_go sep (pred (length sep)) EmptyString tl
          else split_go sep O (cur ++ String c EmptyString) tl
      end
  end.

Definition split (sep s : string) : list string := split_go sep O EmptyString s.

Fixpoint lstrip (s : string) : string :=
  match s with
  | EmptyString => EmptyString
  | String c tl => if is_space c then lstrip tl else s
  end.

Fixpoint rstrip (s : string) : string :=
  match s with
  | EmptyString => EmptyString
  | String c tl =>
      match rstrip tl with
      | EmptyString => if is_space c then EmptyString else String c EmptyString
      | r => String c r
      end
  end.

(** [s.strip()] *)
Definition strip (s : string) : string := lstrip (rstrip s).

(** The digits of a decimal literal: [digit (["_"] digit)*]. [seen] tells
    that the previous character was a digit. *)
Fixpoint int_digits (s : string) (acc : Z) (seen : bool) : option Z :=
  match s with
  | EmptyString => if seen then Some acc else None
  | String c tl =>
      if is_digit c then int_digits tl (10 * acc + digit_val c) true
      else if (code c =? 95) && seen then int_digits tl acc false
      else None
  end.

Definition invalid_literal (s : string) : exn :=
  ValueError ("invalid literal for int() with base 10: '" ++ s ++ "'").

(** The default of [sys.get_int_max_str_digits()]: a decimal literal of
    more digits is refused. *)
Definition int_max_str_digits : nat := 4300.

Definition too_many_digits : exn :=
  ValueError "Exceeds the limit (4300 digits) for integer string conversion".

Fixpoint count_digits (s : string) : nat :=
  match s with
  | EmptyString => O
  | String c tl => ((if is_digit c then 1 else 0) + count_digits tl)%nat
  end.

(** The value of the unsigned literal [body] of the argument [s]. *)
Definition int_literal (s body : string) : result Z :=
  match int_digits body 0 false with
  | None => Raise (invalid_literal s)
  | Some n =>
      if (int_max_str_digits <? count_digits body)%nat
      then Raise too_many_digits
      else OK n
  end.

(** [int(s)] for a string: white space around, an optional sign, digits.
    The message of an invalid literal quotes the argument as [repr] does
    for a string without quotes or escapes; that of a long literal leaves
    out its count of digits. *)
Definition int_of_str (s : string) : result Z :=
  match strip s with
  | String c tl =>
      if code c =? 45 then
        n <- int_literal s tl ;; OK (- n)
      else if code c =? 43 then int_literal s tl
      else int_literal s (String c tl)
  | EmptyString => Raise (invalid_literal s)
  end.

(* ===================================================================== *)
(** * Python: floats                                                      *)
(* ===================================================================== *)

Definition float : Type := spec_float.

Definition prec : Z := 53.
Definition emax : Z := 1024.

(** The float [1.0]. *)
Definition one : float := S754_finite false 4503599627370496 (-52).

(** An integer as an unrounded binary number, exponent 0. *)
Definition raw_int (n : Z) : float :=
  match n with
  | Z0 => S754_zero false
  | Zpos p => S754_finite false p 0
  | Zneg p => S754_finite true p 0
  end.

Definition is_infinite (x : float) : bool :=
  match x with
  | S754_infinity _ => true
  | _ => false
  end.

(** [float(n)]: the nearest float, ties to even. *)
Definition float_of_int (n : Z) : result float :=
  let x := binary_normalize prec emax n 0 false in
  if is_infinite x
  then Raise (OverflowError "int too large to convert to float")
  else OK x.

(** [a / b] on integers: the exact quotient rounded once. *)
Definition int_truediv (a b : Z) : result float :=
  if b =? 0 then Raise (ZeroDivisionError "division by zero")
  else
    let q := SFdiv prec emax (raw_int a) (raw_int b) in
    if is_infinite q
    then Raise (OverflowError "integer division result too large for a float")
    else OK q.

(** [n * x] for an integer [n] and a float [x]. *)
Definition int_mul_float (n : Z) (x : float) : result float :=
  y <- float_of_int n ;;
  OK (SFmul prec emax y x).

Definition float_lt (x y : float) : bool := SFltb x y.

(** [min(x, y)] and [max(x, y)] on floats: the first argument unless the
    second is strictly smaller (larger). *)
Definition float_min (x y : float) : float := if float_lt y x then y else x.
Definition float_max (x y : float) : float := if float_lt x y then y else x.

(** [n / d] rounded to the nearest integer, ties to even, for [0 < d]. *)
Definition div_half_even (n d : Z) : Z :=
  let q := n / d in
  match (2 * (n mod d) ?= d) with
  | Lt => q
  | Gt => q + 1
  | Eq => if Z.even q then q else q + 1
  end.

Definition cond_neg (s : bool) (n : Z) : Z := if s then - n else n.

(** [round(x)] of a float: an integer, ties to even. *)
Definition py_round (x : float) : result Z :=
  match x with
  | S754_zero _ => OK 0
  | S754_finite s m e =>
      if 0 <=? e then OK (cond_neg s (Zpos m * 2 ^ e))
      else OK (cond_neg s (div_half_even (Zpos m) (2 ^ (- e))))
  | S754_infinity _ =>
      Raise (OverflowError "cannot convert float infinity to integer")
  | S754_nan => Raise (ValueError "cannot convert float NaN to integer")
  end.

(** [math.ceil(x)] of a float. *)
Definition math_ceil (x : float) : result Z :=
  match x with
  | S754_zero _ => OK 0
  | S754_finite s m e =>
      if 0 <=? e then OK (cond_neg s (Zpos m * 2 ^ e))
      else OK (- ((- cond_neg s (Zpos m)) / 2 ^ (- e)))
  | S754_infinity _ =>
      Raise (OverflowError "cannot convert float infinity to integer")
  | S754_nan => Raise (ValueError "cannot convert float NaN to integer")
  end.

Definition max_of_empty : exn :=
  ValueError "max() arg is an empty sequence".

(** [max(xs)] of a sequence of integers. *)
Definition max_of (xs : list Z) : result Z :=
  match xs with
  | [] => Raise max_of_empty
  | x :: tl => OK (fold_left Z.max tl x)
  end.

(* ===================================================================== *)
(** * Pillow: RGB images                                                  *)
(* ===================================================================== *)

Definition color : Type := (Z * Z * Z)%type.

Definition black : color := (0, 0, 0).
Definition white : color := (255, 255, 255).

(** An image: its size and the colour of the pixel of column [x], row [y]
    (meaningful for [0 <= x < width] and [0 <= y < height]). *)
Record Image : Type := mkImage {
  width : Z;
  height : Z;
  getpixel : Z -> Z -> color
}.

Definition size (img : Image) : Z * Z := (width img, height img).

Definition in_image (img : Image) (x y : Z) : bool :=
  (0 <=? x) && (x <? width img) && (0 <=? y) && (y <? height img).

Inductive resample_filter : Type := NEAREST | BILINEAR | BICUBIC | LANCZOS.

(** The interpolation of Pillow is not part of the program: [resampler]
    is the colour that a filter gives to pixel [(x, y)] of the source
    resampled to [nw] by [nh]. *)
Definition resampler : Type :=
  resample_filter -> Image -> Z -> Z -> Z -> Z -> color.

(** [Image.new("RGB", (w, h), color)] *)
Definition Image_new (w h : Z) (c : color) : result Image :=
  if (w <? 0) || (h <? 0)
  then Raise (ValueError "Width and height must be >= 0")
  else OK (mkImage w h (fun _ _ => c)).

(** [img.resize((nw, nh), interp)]: a copy when the size does not change. *)
Definition Image_resize (rs : resampler) (img : Image) (nw nh : Z)
    (interp : resample_filter) : result Image :=
  if (nw =? width img) && (nh =? height img) then OK img
  else if (nw <? 1) || (nh <? 1)
  then Raise (ValueError "height and width must be > 0")
  else OK (mkImage nw nh (rs interp img nw nh)).

(** [canvas.paste(im, (ox, oy))]: the pixels of [im] cover those of the
    canvas from [(ox, oy)] on; the size of the canvas is kept. *)
Definition Image_paste (canvas im : Image) (ox oy : Z) : Image :=
  mkImage (width canvas) (height canvas)
    (fun x y => if in_image im (x - ox) (y - oy)
                then getpixel im (x - ox) (y - oy)
                else getpixel canvas x y).

(** [img.crop((left, top, right, bottom))]: the pixels of the box that lie
    outside [img] are zero. *)
Definition Image_crop (img : Image) (left top right bottom : Z) : result Image :=
  if right <? left
  then Raise (ValueError "Coordinate 'right' is less than 'left'")
  else if bottom <? top
  then Raise (ValueError "Coordinate 'lower' is less than 'upper'")
  else OK (mkImage (right - left) (bottom - top)
             (fun x y => if in_image img (x + left) (y + top)
                         then getpixel img (x + left) (y + top)
                         else black)).

(** Nearest-neighbour sampling, a resampler to run the model with. *)
Definition nearest : resampler :=
  fun _ img nw nh x y => getpixel img (x * width img / nw) (y * height img / nh).

(* ===================================================================== *)
(** * app.py: resize_by_long_or_short and resize_to_box                   *)
(* ===================================================================== *)

Definition mode_long : string := "最长边".
Definition mode_short : string := "短边".

Definition fit_pad : string := "等比缩放，补边".
Definition fit_crop : string := "等比填满，居中裁剪".

(** [max(1, int(round(n * scale)))] *)
Definition scaled_dim (n : Z) (scale : float) : result Z :=
  x <- int_mul_float n scale ;;
  r <- py_round x ;;
  OK (Z.max 1 r).

Definition resize_by_long_or_short (rs : resampler) (img : Image) (target : Z)
    (mode : string) (keep_ratio no_upscale : bool) (interp : resample_filter)
  : result Image :=
  let '(w, h) := size img in
  if keep_ratio then
    scale <- (if String.eqb mode mode_long
              then int_truediv target (Z.max w h)
              else int_truediv target (Z.min w h)) ;;
    if no_upscale && float_lt one scale then OK img
    else
      nw <- scaled_dim w scale ;;
      nh <- scaled_dim h scale ;;
      Image_resize rs img nw nh interp
  else
    let '(nw, nh) :=
      if String.eqb mode mode_long
      then (if w >=? h then (target, h) else (w, target))
      else (if w <=? h then (target, h) else (w, target)) in
    let '(nw, nh) :=
      if no_upscale then (Z.min nw w, Z.min nh h) else (nw, nh) in
    Image_resize rs img nw nh interp.

Definition resize_to_box (rs : resampler) (img : Image) (tw th : Z)
    (fit_mode : string) (c : color) (interp : resample_filter)
    (no_upscale : bool) : result Image :=
  let '(w, h) := size img in
  if String.eqb fit_mode fit_pad then
    sx <- int_truediv tw w ;;
    sy <- int_truediv th h ;;
    let scale := float_min sx sy in
    let scale := if no_upscale then float_min one scale else scale in
    nw <- scaled_dim w scale ;;
    nh <- scaled_dim h scale ;;
    img2 <- Image_resize rs img nw nh interp ;;
    canvas <- Image_new tw th c ;;
    OK (Image_paste canvas img2 ((tw - nw) / 2) ((th - nh) / 2))
  else if String.eqb fit_mode fit_crop then
    sx <- int_truediv tw w ;;
    sy <- int_truediv th h ;;
    let scale := float_max sx sy in
    let scale := if no_upscale then float_min one scale else scale in
    nw <- scaled_dim w scale ;;
    nh <- scaled_dim h scale ;;
    img2 <- Image_resize rs img nw nh interp ;;
    let left := Z.max 0 ((nw - tw) / 2) in
    let top := Z.max 0 ((nh - th) / 2) in
    Image_crop img2 left top (left + tw) (top + th)
  else
    let '(tw, th) :=
      if no_upscale then (Z.min tw w, Z.min th h) else (tw, th) in
    Image_resize rs img tw th interp.

(* ===================================================================== *)
(** * app.py: parse_size                                                  *)
(* ===================================================================== *)

Definition msg_format : string := "输入格式应为 宽x高，例如 1024x768".
Definition msg_positive : string := "宽高需要是正整数".

(** The separator accepted besides [x]: U+00D7, two bytes in UTF-8. *)
Definition times_sign : string := "×".

Definition parse_size (text : string) : result (Z * Z) :=
  let parts := split "x" (replace times_sign "x" (lower text)) in
  match parts with
  | [p0; p1] =>
      w <- int_of_str (strip p0) ;;
      h <- int_of_str (strip p1) ;;
      if (w <=? 0) || (h <=? 0)
      then Raise (ValueError msg_positive)
      else OK (w, h)
  | _ => Raise (ValueError msg_format)
  end.

(* ===================================================================== *)
(** * app.py: the two size text fields of the sidebar                     *)
(* ===================================================================== *)

(** What a run shows to the user besides its widgets. *)
Inductive ui_event : Type :=
| st_error (msg : string)
| st_warning (msg : string).

(** Lines 183-189: the target canvas. The events shown and the value of
    [(tw, th)] after the [try]. *)
Definition target_canvas_field (box_str : string) : list ui_event * (Z * Z) :=
  match parse_size box_str with
  | OK wh => ([], wh)
  | Raise e => ([st_error (str_of_exn e)], (1024, 768))
  end.

(** Lines 200-205: the custom sheet size, [(sheet_w, sheet_h)]. *)
Definition sheet_size_field (sheet_wh : string) : list ui_event * (Z * Z) :=
  match parse_size sheet_wh with
  | OK wh => ([], wh)
  | Raise _ => ([], (2480, 3508))
  end.

(* ===================================================================== *)
(** * app.py: draw_caption                                                *)
(* ===================================================================== *)

(** The default font of Pillow is not part of the program: the extent of
    a text (right and bottom of its bounding box at the origin) and the
    pixels that drawing it at [(tx, ty)] changes. *)
Record Font : Type := mkFont {
  text_extent : string -> Z * Z;
  text_render : string -> Z -> Z -> color -> (Z -> Z -> color) -> Z -> Z -> color
}.

Definition draw_caption (font : Font) (img : Image) (text : string)
    (font_size : Z) (c : color) (bg : option color) (pad : Z) : result Image :=
  if String.eqb text EmptyString then OK img
  else
    let '(tw, th) := text_extent font text in
    let '(W, H) := size img in
    let cap_h := th + pad * 2 in
    canvas <- Image_new W (H + cap_h)
                (match bg with None => white | Some b => b end) ;;
    let canvas := Image_paste canvas img 0 0 in
    let tx := (W - tw) / 2 in
    let ty := H + pad in
    OK (mkImage (width canvas) (height canvas)
          (text_render font text tx ty c (getpixel canvas))).

(* ===================================================================== *)
(** * app.py: the contact sheet                                           *)
(* ===================================================================== *)

Record ProcessedImage : Type := mkProcessed {
  name : string;
  orig_size : Z * Z;
  out_img : Image;
  out_size : Z * Z;
  scale : float
}.

(** Lines 291-296: the images entering the grid. *)
Fixpoint imgs_for_grid (font : Font) (processed : list ProcessedImage)
    (show_caption : bool) (caption_font : Z) : result (list Image) :=
  match processed with
  | [] => OK []
  | item :: tl =>
      im <- (if show_caption
             then draw_caption font (out_img item) (name item) caption_font
                    black (Some white) 6
             else OK (out_img item)) ;;
      rest <- imgs_for_grid font tl show_caption caption_font ;;
      OK (im :: rest)
  end.

(** [enumerate(l)] *)
Definition enumerate {A : Type} (l : list A) : list (Z * A) :=
  combine (map Z.of_nat (seq 0 (List.length l))) l.

(** Lines 319-327: where image [i] is pasted. *)
Definition paste_offset (cols grid_gap margin cell_w cell_h : Z)
    (i : Z) (im : Image) : Z * Z :=
  let r := i / cols in
  let c := i mod cols in
  let x := margin + c * (cell_w + grid_gap) in
  let y := margin + r * (cell_h + grid_gap) in
  let ox := x + (cell_w - width im) / 2 in
  let oy := y + (cell_h - height im) / 2 in
  if (ox <? 0) || (oy <? 0) then (x, y) else (ox, oy).

(** The values of a run of the contact-sheet block: its local variables
    [cell_w], [cell_h], [rows], [W], [H], the offsets of the pastes in
    order, the events shown and the sheet. *)
Record Layout : Type := mkLayout {
  cell_w : Z;
  cell_h : Z;
  rows : Z;
  canvas_w : Z;
  canvas_h : Z;
  offsets : list (Z * Z);
  events : list ui_event;
  sheet : Image
}.

Definition msg_small : string :=
  "自定义画布可能过小，部分图片会被截断或超出画布。".

(** [math.ceil(n / cols)] *)
Definition ceil_div (n cols : Z) : result Z :=
  q <- int_truediv n cols ;;
  math_ceil q.

(** Lines 298-328 on the images of the grid. *)
Definition contact_sheet (imgs : list Image) (cols grid_gap margin : Z)
    (sheet_w sheet_h : option Z) (bg_rgb : color) : result Layout :=
  cw <- max_of (map width imgs) ;;
  ch <- max_of (map height imgs) ;;
  let n := Z.of_nat (List.length imgs) in
  geometry <-
    match sheet_w, sheet_h with
    | Some W, Some H =>
        let minW := margin * 2 + cols * cw + (cols - 1) * grid_gap in
        r <- ceil_div n cols ;;
        let rows := Z.max 1 r in
        let minH := margin * 2 + rows * ch + (rows - 1) * grid_gap in
        OK (rows, W, H,
            if (W <? minW) || (H <? minH) then [st_warning msg_small] else [])
    | _, _ =>
        rows <- ceil_div n cols ;;
        OK (rows,
            margin * 2 + cols * cw + (cols - 1) * grid_gap,
            margin * 2 + rows * ch + (rows - 1) * grid_gap,
            [])
    end ;;
  let '(rows, W, H, evs) := geometry in
  blank <- Image_new W H bg_rgb ;;
  let offs :=
    map (fun p => paste_offset cols grid_gap margin cw ch (fst p) (snd p))
      (enumerate imgs) in
  let pasted :=
    fold_left
      (fun sh p =>
         let '(ox, oy) :=
           paste_offset cols grid_gap margin cw ch (fst p) (snd p) in
         Image_paste sh (snd p) ox oy)
      (enumerate imgs) blank in
  OK (mkLayout cw ch rows W H offs evs pasted).

(** Lines 289-328 on the processed images. *)
Definition make_contact_sheet (font : Font) (processed : list ProcessedImage)
    (show_caption : bool) (caption_font : Z) (cols grid_gap margin : Z)
    (sheet_w sheet_h : option Z) (bg_rgb : color) : result Layout :=
  imgs <- imgs_for_grid font processed show_caption caption_font ;;
  contact_sheet imgs cols grid_gap margin sheet_w sheet_h bg_rgb.

(* ===================================================================== *)
(** * Running the model                                                   *)
(* ===================================================================== *)

Definition plain (w h : Z) (c : color) : Image := mkImage w h (fun _ _ => c).


Definition geometry_of (r : result Layout)
  : result (Z * Z * Z * (Z * Z) * list (Z * Z)) :=
  l <- r ;;
  OK (cell_w l, cell_h l, rows l, (canvas_w l, canvas_h l), offsets l).


(* ===================================================================== *)
(** * Vocabulary of the specification                                     *)
(* ===================================================================== *)

(** A non-empty string of ASCII digits and the number it writes. *)
Fixpoint all_digits (s : string) : bool :=
  match s with
  | EmptyString => true
  | String c tl => is_digit c && all_digits tl
  end.






(** A decoded image has at least one pixel. *)
Definition proper (img : Image) : Prop := 0 < width img /\ 0 < height img.

(** [m] is the maximum of the numbers [xs]. *)
Definition is_max (xs : list Z) (m : Z) : Prop :=
  In m xs /\ forall x, In x xs -> x <= m.


(** The rectangle of width [w] and height [h] whose top-left pixel is
    [(x, y)] contains pixel [(px, py)]. *)
Definition in_box (x y w h px py : Z) : Prop :=
  x <= px < x + w /\ y <= py < y + h.

(** Two placed images, each an offset and a size, share a pixel. *)
Definition boxes_intersect (o1 s1 o2 s2 : Z * Z) : Prop :=
  exists px py,
    in_box (fst o1) (snd o1) (fst s1) (snd s1) px py /\
    in_box (fst o2) (snd o2) (fst s2) (snd s2) px py.

(** The offset that centres an image in cell [i] of the grid. *)
Definition centered_offset (cols grid_gap margin cw ch : Z) (i : Z)
    (im : Image) : Z * Z :=
  (margin + (i mod cols) * (cw + grid_gap) + (cw - width im) / 2,
   margin + (i / cols) * (ch + grid_gap) + (ch - height im) / 2).


(** A positive normal float between [2^-53] and [2^54]. *)
Definition normal (x : float) : Prop :=
  exists (m : positive) (e : Z),
    x = S754_finite false m e /\ 2 ^ 52 <= Zpos m < 2 ^ 53 /\ -105 <= e <= 1.

(** A bit as a number. *)
Definition b2z (b : bool) : Z := if b then 1 else 0.

(** Integers that a float holds exactly and that are positive: the range
    of the pixel counts below. *)
Definition pixels (n : Z) : Prop := 0 < n < 2 ^ 53.





Definition img3 : list Image :=
  [plain 300 200 white; plain 100 100 white; plain 300 100 white].

(* ===================================================================== *)
(** * Pillow: ImageOps.fit and ImageOps.expand                            *)
(* ===================================================================== *)




(* ===================================================================== *)
(** * app.py: pad_to_size                                                 *)
(* ===================================================================== *)


(* ===================================================================== *)
(** * app.py: the background colour of the sidebar                        *)
(* ===================================================================== *)

(** [s.lstrip(c)] for one ASCII character [c]. *)
Fixpoint lstrip_char (c : ascii) (s : string) : string :=
  match s with
  | EmptyString => EmptyString
  | String a tl => if Ascii.eqb a c then lstrip_char c tl else s
  end.

(** [s[i:j]] for [0 <= i <= j], on ASCII text. *)
Definition slice (s : string) (i j : nat) : string := substring i (j - i) s.

Definition hex_val (c : ascii) : option Z :=
  if is_digit c then Some (code c - 48)
  else if (97 <=? code c) && (code c <=? 102) then Some (code c - 87)
  else if (65 <=? code c) && (code c <=? 70) then Some (code c - 55)
  else None.

(** The digits of a hexadecimal literal: [digit (["_"] digit)*]. *)
Fixpoint hex_digits (s : string) (acc : Z) (seen : bool) : option Z :=
  match s with
  | EmptyString => if seen then Some acc else None
  | String c tl =>
      match hex_val c with
      | Some d => hex_digits tl (16 * acc + d) true
      | None =>
          if (code c =? 95) && seen then hex_digits tl acc false else None
      end
  end.

Definition invalid_literal_16 (s : string) : exn :=
  ValueError ("invalid literal for int() with base 16: '" ++ s ++ "'").

(** The value of the unsigned literal [body] of the argument [s]: the
    prefix [0x] or [0X] may come first, and one underscore after it. *)
Definition hex_literal (s body : string) : result Z :=
  let digits :=
    match body with
    | String c0 (String c1 tl) =>
        if (code c0 =? 48) && ((code c1 =? 120) || (code c1 =? 88))
        then match tl with
             | String c2 tl' => if code c2 =? 95 then tl' else tl
             | EmptyString => tl
             end
        else body
    | _ => body
    end in
  match hex_digits digits 0 false with
  | None => Raise (invalid_literal_16 s)
  | Some n => OK n
  end.

(** [int(s, 16)] for a string. *)
Definition int_of_str_16 (s : string) : result Z :=
  match strip s with
  | String c tl =>
      if code c =? 45 then
        n <- hex_literal s tl ;; OK (- n)
      else if code c =? 43 then hex_literal s tl
      else hex_literal s (String c tl)
  | EmptyString => Raise (invalid_literal_16 s)
  end.

(** Line 177: [bg_rgb] from the text of the colour picker. *)
Definition bg_rgb_of (pad_bg : string) : result color :=
  let s := lstrip_char "#" pad_bg in
  r <- int_of_str_16 (slice s 0 2) ;;
  g <- int_of_str_16 (slice s 2 4) ;;
  b <- int_of_str_16 (slice s 4 6) ;;
  OK (r, g, b).

(* ===================================================================== *)
(** * app.py: the processing loop                                         *)
(* ===================================================================== *)





Section Script.

(** The values of the sidebar. *)
Variables (rs : resampler) (mode : string) (no_upscale : bool)
          (interp : resample_filter) (bg_rgb : color)
          (ls_mode : string) (target_px : Z)
          (tw th : Z) (fit_mode : string).




End Script.

(* ===================================================================== *)
(** * app.py: the names of the ZIP entries                                *)
(* ===================================================================== *)

(** [s.rsplit(sep, 1)] for one ASCII character [sep]: the text before the
    last [sep] and the text after it, or [s] alone. *)
Fixpoint rsplit1_go (sep : ascii) (s : string) : option (string * string) :=
  match s with
  | EmptyString => None
  | String c tl =>
      match rsplit1_go sep tl with
      | Some (b, a) => Some (String c b, a)
      | None => if Ascii.eqb c sep then Some (EmptyString, tl) else None
      end
  end.

Definition rsplit1 (sep : ascii) (s : string) : list string :=
  match rsplit1_go sep s with
  | Some (b, a) => [b; a]
  | None => [s]
  end.

Fixpoint zeros (n : nat) : string :=
  match n with
  | O => EmptyString
  | S k => String "0" (zeros k)
  end.

(** [str(n)] for [0 <= n]. *)
Definition str_of_nat (n : Z) : string :=
  NilZero.string_of_uint (N.to_uint (Z.to_N n)).

(** [format(n, "03d")]: at least three characters, the sign first. *)
Definition format_03d (n : Z) : string :=
  if n <? 0
  then let d := str_of_nat (- n) in
       String "-" (zeros (2 - String.length d) ++ d)
  else let d := str_of_nat n in
       zeros (3 - String.length d) ++ d.

(** [enumerate(l, start)] *)
Definition enumerate_from {A : Type} (start : Z) (l : list A) : list (Z * A) :=
  combine (map (fun i => start + Z.of_nat i) (seq 0 (List.length l))) l.

(** Lines 253-255. *)
Definition out_name (idx : Z) (item : ProcessedImage) : string :=
  let base := match rsplit1 "." (name item) with
              | b :: _ => b
              | [] => EmptyString
              end in
  format_03d idx ++ "_" ++ base ++ ".jpg".

Definition zip_names (processed : list ProcessedImage) : list string :=
  map (fun p => out_name (fst p) (snd p)) (enumerate_from 1 processed).

(* ===================================================================== *)
(** * app.py: the sheet of a paper size                                   *)
(* ===================================================================== *)

(** [x * n] for a float [x] and an integer [n]. *)
Definition float_mul_int (x : float) (n : Z) : result float :=
  y <- float_of_int n ;;
  OK (SFmul prec emax x y).

(** [int(x)] of a float: towards zero. *)
Definition int_of_float (x : float) : result Z :=
  match x with
  | S754_zero _ => OK 0
  | S754_finite s m e =>
      if 0 <=? e then OK (cond_neg s (Zpos m * 2 ^ e))
      else OK (cond_neg s (Zpos m / 2 ^ (- e)))
  | S754_infinity _ =>
      Raise (OverflowError "cannot convert float infinity to integer")
  | S754_nan => Raise (ValueError "cannot convert float NaN to integer")
  end.

(** The literals [8.27], [11.69] and [8.5]: the nearest floats. *)
Definition f8_27 : float := S754_finite false 4655596114794250 (-49).
Definition f11_69 : float := S754_finite false 6580884955495137 (-49).
Definition f8_5 : float := S754_finite false 4785074604081152 (-49).

(** Lines 206-212: [(sheet_w, sheet_h)] of a paper at [dpi]. *)
Definition paper_size (paper : string) (dpi : Z) : result (Z * Z) :=
  if String.eqb paper "A4" then
    x <- float_mul_int f8_27 dpi ;;
    w <- int_of_float x ;;
    y <- float_mul_int f11_69 dpi ;;
    h <- int_of_float y ;;
    OK (w, h)
  else
    x <- float_mul_int f8_5 dpi ;;
    w <- int_of_float x ;;
    OK (w, 11 * dpi).

(* ===================================================================== *)
(** * Vocabulary of the further properties                               *)
(* ===================================================================== *)




(** The height of the band that [draw_caption] adds for a text. *)
Definition caption_band (font : Font) (text : string) : Z :=
  if String.eqb text EmptyString then 0
  else snd (text_extent font text) + 6 * 2.

(** The number that a string of digits writes, leading zeros allowed. *)
Definition number_of (s : string) : option N :=
  option_map N.of_uint (NilEmpty.uint_of_string s).

(** The text has the character. *)
Fixpoint has_char (c : ascii) (s : string) : bool :=
  match s with
  | EmptyString => false
  | String a tl => Ascii.eqb a c || has_char c tl
  end.






(** A font of fixed width to run the model with: 6 by 11 pixels a
    character, drawn without ink. *)
Definition mono_font : Font :=
  mkFont (fun text => (6 * Z.of_nat (String.length text), 11))
         (fun _ _ _ _ px => px).


(* ===================================================================== *)
(** * Runs of the model                                                   *)
(* ===================================================================== *)

Example parse_size_1024x768 : parse_size "1024x768" = OK (1024, 768).
Proof. reflexivity. Qed.

Example parse_size_times : parse_size "1024×768" = OK (1024, 768).
Proof. reflexivity. Qed.

Example parse_size_abc : parse_size "abc" = Raise (ValueError msg_format).
Proof. reflexivity. Qed.

Example parse_size_spaces : parse_size " 12 X 0_7 " = OK (12, 7).
Proof. reflexivity. Qed.

Example parse_size_zero : parse_size "0x10" = Raise (ValueError msg_positive).
Proof. reflexivity. Qed.

Example parse_size_three : parse_size "1x2x3" = Raise (ValueError msg_format).
Proof. reflexivity. Qed.

Example ceil_div_5_3 : ceil_div 5 3 = OK 2.
Proof. reflexivity. Qed.

Example third : int_truediv 1 3 = OK (S754_finite false 6004799503160661 (-54)).
Proof. reflexivity. Qed.

Example round_half_even :
  (x <- int_truediv 5 2 ;; py_round x) = OK 2 /\
  (x <- int_truediv 7 2 ;; py_round x) = OK 4.
Proof. split; reflexivity. Qed.

Example float_of_big_int :
  float_of_int 9007199254740993 = OK (S754_finite false 4503599627370496 1).
Proof. reflexivity. Qed.

Example sheet_of_five :
  geometry_of
    (contact_sheet
       [plain 300 200 white; plain 100 100 white; plain 300 100 white;
        plain 10 200 white; plain 1 1 white] 3 10 20 None None white)
  = OK (300, 200, 2, (960, 450),
        [(20, 20); (430, 70); (640, 70); (165, 230); (479, 329)]).
Proof. vm_compute. reflexivity. Qed.

(** Bounds on pixel counts, by linear arithmetic. *)
Ltac pixel_bounds := unfold pixels in *; lia.

(* ===================================================================== *)
(** * parse_size                                                          *)
(* ===================================================================== *)

Section StringLemmas.

Lemma code_range (c : ascii) : 0 <= code c < 256.
Proof.
  unfold code. pose proof (N_ascii_bounded c). lia.
Qed.



















End StringLemmas.










(* ===================================================================== *)
(** * The grid of the contact sheet                                       *)
(* ===================================================================== *)

Section Maximum.

Lemma fold_max_ge (l : list Z) (x : Z) : x <= fold_left Z.max l x.
Proof.
  revert x. induction l as [|y l IH]; simpl; intros x; [lia|].
  specialize (IH (Z.max x y)). lia.
Qed.

Lemma fold_max_upper (l : list Z) (x y : Z) :
  In y l -> y <= fold_left Z.max l x.
Proof.
  revert x. induction l as [|z l IH]; simpl; intros x H; [contradiction|].
  destruct H as [->|H].
  - pose proof (fold_max_ge l (Z.max x y)). lia.
  - now apply IH.
Qed.

Lemma fold_max_in (l : list Z) (x : Z) :
  fold_left Z.max l x = x \/ In (fold_left Z.max l x) l.
Proof.
  revert x. induction l as [|y l IH]; simpl; intros x; [now left|].
  destruct (IH (Z.max x y)) as [E|E].
  - rewrite E. destruct (Z.max_spec x y) as [[_ ->]|[_ ->]]; auto.
  - auto.
Qed.

Lemma max_of_is_max (xs : list Z) (m : Z) :
  max_of xs = OK m -> is_max xs m.
Proof.
  destruct xs as [|x l]; simpl; intros H; [discriminate|].
  inversion H; subst. split.
  - destruct (fold_max_in l x) as [->|E]; simpl; auto.
  - intros y [->|Hy]; [apply fold_max_ge | now apply fold_max_upper].
Qed.


End Maximum.

Section Enumerate.

Context {A : Type}.

Lemma combine_seq_nth (l : list A) (start i : nat) (x : A) :
  nth_error l i = Some x ->
  nth_error (combine (map Z.of_nat (seq start (List.length l))) l) i
  = Some (Z.of_nat (start + i), x).
Proof.
  revert start i. induction l as [|y l IH]; intros start i H.
  - destruct i; discriminate.
  - destruct i as [|i]; simpl in *.
    + inversion H; subst. now rewrite Nat.add_0_r.
    + rewrite (IH (S start) i H). do 2 f_equal. lia.
Qed.

Lemma enumerate_nth (l : list A) (i : nat) (x : A) :
  nth_error l i = Some x ->
  nth_error (enumerate l) i = Some (Z.of_nat i, x).
Proof.
  intros H. unfold enumerate. now rewrite (combine_seq_nth l 0 i x H).
Qed.


End Enumerate.

Section Grid.

Variables (cols grid_gap margin cw ch : Z).
Hypothesis Hcols : 1 <= cols.
Hypothesis Hgap : 0 <= grid_gap.
Hypothesis Hmargin : 0 <= margin.

(** An image no larger than the cell is pasted at the centring offset,
    which is not negative: the test of line 326 fails. *)
Lemma paste_offset_centered (i : Z) (im : Image) :
  0 <= i -> 0 <= cw -> 0 <= ch ->
  width im <= cw -> height im <= ch ->
  paste_offset cols grid_gap margin cw ch i im
  = centered_offset cols grid_gap margin cw ch i im /\
  0 <= fst (centered_offset cols grid_gap margin cw ch i im) /\
  0 <= snd (centered_offset cols grid_gap margin cw ch i im).
Proof.
  intros Hi Hcw Hch Hw Hh.
  unfold paste_offset, centered_offset. simpl.
  assert (Hc : 0 <= i mod cols) by (apply Z.mod_pos_bound; lia).
  assert (Hr : 0 <= i / cols) by (apply Z.div_pos; lia).
  assert (Hx : 0 <= (cw - width im) / 2) by (apply Z.div_pos; lia).
  assert (Hy : 0 <= (ch - height im) / 2) by (apply Z.div_pos; lia).
  assert (Hcx : 0 <= i mod cols * (cw + grid_gap)) by (apply Z.mul_nonneg_nonneg; lia).
  assert (Hry : 0 <= i / cols * (ch + grid_gap)) by (apply Z.mul_nonneg_nonneg; lia).
  destruct (Z.ltb_spec (margin + i mod cols * (cw + grid_gap) + (cw - width im) / 2) 0);
    [lia|].
  destruct (Z.ltb_spec (margin + i / cols * (ch + grid_gap) + (ch - height im) / 2) 0);
    [lia|].
  simpl. repeat split; lia.
Qed.

(** The centred image lies inside its cell. *)
Lemma centered_in_cell (i : Z) (im : Image) (px py : Z) :
  0 <= width im <= cw -> 0 <= height im <= ch ->
  in_box (fst (centered_offset cols grid_gap margin cw ch i im))
         (snd (centered_offset cols grid_gap margin cw ch i im))
         (width im) (height im) px py ->
  in_box (margin + (i mod cols) * (cw + grid_gap))
         (margin + (i / cols) * (ch + grid_gap)) cw ch px py.
Proof.
  unfold in_box, centered_offset. simpl. intros Hw Hh [Hx Hy].
  assert (0 <= (cw - width im) / 2 <= cw - width im)
    by (split; [apply Z.div_pos; lia | apply Z.div_le_upper_bound; lia]).
  assert (0 <= (ch - height im) / 2 <= ch - height im)
    by (split; [apply Z.div_pos; lia | apply Z.div_le_upper_bound; lia]).
  lia.
Qed.

(** Two different cells of the grid share no pixel. *)
Lemma cells_disjoint (i j px py : Z) :
  0 <= i -> 0 <= j -> i <> j -> 0 <= cw -> 0 <= ch ->
  in_box (margin + (i mod cols) * (cw + grid_gap))
         (margin + (i / cols) * (ch + grid_gap)) cw ch px py ->
  in_box (margin + (j mod cols) * (cw + grid_gap))
         (margin + (j / cols) * (ch + grid_gap)) cw ch px py ->
  False.
Proof.
  unfold in_box. intros Hi Hj Hij Hcw Hch [Hxi Hyi] [Hxj Hyj].
  assert (Hcell : i mod cols <> j mod cols \/ i / cols <> j / cols).
  { destruct (Z.eq_dec (i mod cols) (j mod cols)) as [Em|]; [|now left].
    destruct (Z.eq_dec (i / cols) (j / cols)) as [Ed|]; [|now right].
    exfalso. apply Hij.
    rewrite (Z.div_mod i cols), (Z.div_mod j cols) by lia.
    now rewrite Em, Ed. }
  destruct Hcell as [Hc|Hr].
  - assert (i mod cols < j mod cols \/ j mod cols < i mod cols) as [L|L] by lia; nia.
  - assert (i / cols < j / cols \/ j / cols < i / cols) as [L|L] by lia; nia.
Qed.

End Grid.

Section ContactSheet.

Lemma bind_ok {A B : Type} (r : result A) (k : A -> result B) (b : B) :
  bind r k = OK b -> exists a, r = OK a /\ k a = OK b.
Proof.
  destruct r as [a|e]; simpl; [eauto | discriminate].
Qed.

Lemma paste_all_size (f : Z * Image -> Z * Z) (l : list (Z * Image))
    (blank : Image) :
  size (fold_left (fun sh p => let '(ox, oy) := f p in
                               Image_paste sh (snd p) ox oy) l blank)
  = size blank.
Proof.
  revert blank. induction l as [|p l IH]; intros blank; [reflexivity|].
  simpl. rewrite IH. now destruct (f p).
Qed.

Lemma Image_new_ok (w h : Z) (c : color) (img : Image) :
  Image_new w h c = OK img -> size img = (w, h) /\ 0 <= w /\ 0 <= h.
Proof.
  unfold Image_new. destruct ((w <? 0) || (h <? 0)) eqn:E; [discriminate|].
  intros H. inversion H; subst. apply orb_false_iff in E.
  destruct E as [Ew Eh]. apply Z.ltb_ge in Ew, Eh. now repeat split.
Qed.

Lemma Image_new_run (w h : Z) (c : color) :
  0 <= w -> 0 <= h -> Image_new w h c = OK (mkImage w h (fun _ _ => c)).
Proof.
  intros Hw Hh. unfold Image_new.
  destruct (Z.ltb_spec w 0); [lia|]. destruct (Z.ltb_spec h 0); [lia|].
  reflexivity.
Qed.

(** What a run of the block that returns has computed. *)
Lemma contact_sheet_ok (imgs : list Image) (cols grid_gap margin : Z)
    (sheet_w sheet_h : option Z) (bg_rgb : color) (L : Layout) :
  contact_sheet imgs cols grid_gap margin sheet_w sheet_h bg_rgb = OK L ->
  max_of (map width imgs) = OK (cell_w L) /\
  max_of (map height imgs) = OK (cell_h L) /\
  offsets L
  = map (fun p => paste_offset cols grid_gap margin (cell_w L) (cell_h L)
                    (fst p) (snd p)) (enumerate imgs) /\
  size (sheet L) = (canvas_w L, canvas_h L) /\
  match sheet_w, sheet_h with
  | Some W, Some H =>
      canvas_w L = W /\ canvas_h L = H /\
      exists r, ceil_div (Z.of_nat (List.length imgs)) cols = OK r /\
                rows L = Z.max 1 r
  | _, _ =>
      ceil_div (Z.of_nat (List.length imgs)) cols = OK (rows L) /\
      canvas_w L
      = margin * 2 + cols * cell_w L + (cols - 1) * grid_gap /\
      canvas_h L
      = margin * 2 + rows L * cell_h L + (rows L - 1) * grid_gap
  end.
Proof.
  unfold contact_sheet. intros H.
  apply bind_ok in H. destruct H as (cw & Hcw & H).
  apply bind_ok in H. destruct H as (ch & Hch & H).
  apply bind_ok in H. destruct H as ([[[r W] Hh] evs] & Hgeo & H).
  apply bind_ok in H. destruct H as (blank & Hblank & H).
  inversion H; subst L; clear H. simpl.
  apply Image_new_ok in Hblank. destruct Hblank as (Hsize & _ & _).
  split; [assumption|]. split; [assumption|]. split; [reflexivity|].
  split; [now rewrite paste_all_size|].
  destruct sheet_w as [sw|]; [destruct sheet_h as [sh|]|].
  - apply bind_ok in Hgeo. destruct Hgeo as (r0 & Hr0 & Hgeo).
    inversion Hgeo; subst. eauto.
  - apply bind_ok in Hgeo. destruct Hgeo as (r0 & Hr0 & Hgeo).
    inversion Hgeo; subst. auto.
  - apply bind_ok in Hgeo. destruct Hgeo as (r0 & Hr0 & Hgeo).
    inversion Hgeo; subst. auto.
Qed.

Lemma is_max_widths (imgs : list Image) (f : Image -> Z) (m : Z) (i : nat)
    (im : Image) :
  is_max (map f imgs) m -> nth_error imgs i = Some im -> f im <= m.
Proof.
  intros [_ Hub] Hi. apply Hub. apply in_map. eapply nth_error_In; eauto.
Qed.

Lemma is_max_nonneg (imgs : list Image) (f : Image -> Z) (m : Z) :
  is_max (map f imgs) m -> Forall (fun im => 0 < f im) imgs -> 0 < m.
Proof.
  intros [Hin _] Hall. apply in_map_iff in Hin.
  destruct Hin as (im & <- & Him).
  rewrite Forall_forall in Hall. now apply Hall.
Qed.

Lemma proper_widths (imgs : list Image) :
  Forall proper imgs -> Forall (fun im => 0 < width im) imgs.
Proof.
  apply Forall_impl. now intros im [H _].
Qed.

Lemma proper_heights (imgs : list Image) :
  Forall proper imgs -> Forall (fun im => 0 < height im) imgs.
Proof.
  apply Forall_impl. now intros im [_ H].
Qed.

Lemma offsets_nth (imgs : list Image) (cols grid_gap margin cw ch : Z)
    (i : nat) (im : Image) :
  nth_error imgs i = Some im ->
  nth_error
    (map (fun p => paste_offset cols grid_gap margin cw ch (fst p) (snd p))
       (enumerate imgs)) i
  = Some (paste_offset cols grid_gap margin cw ch (Z.of_nat i) im).
Proof.
  intros H. rewrite nth_error_map, (enumerate_nth imgs i im H). reflexivity.
Qed.

End ContactSheet.

(** C6. With [margin >= 0], [grid_gap >= 0] and at least one column, the
    cell being the maximum over the images of the grid (caption bands
    included: any list of images), the centring offsets of every image
    are not negative, so the test of line 326 is false and the image is
    pasted at the centring offset, never flush top-left. *)
Theorem centering_never_negative :
  forall (imgs : list Image) (cols grid_gap margin cw ch : Z)
         (i : nat) (im : Image),
    1 <= cols -> 0 <= grid_gap -> 0 <= margin ->
    Forall proper imgs ->
    max_of (map width imgs) = OK cw ->
    max_of (map height imgs) = OK ch ->
    nth_error imgs i = Some im ->
    let x := margin + (Z.of_nat i mod cols) * (cw + grid_gap) in
    let y := margin + (Z.of_nat i / cols) * (ch + grid_gap) in
    let ox := x + (cw - width im) / 2 in
    let oy := y + (ch - height im) / 2 in
    0 <= ox /\ 0 <= oy /\
    ((ox <? 0) || (oy <? 0)) = false /\
    paste_offset cols grid_gap margin cw ch (Z.of_nat i) im = (ox, oy).
Proof.
  intros imgs cols grid_gap margin cw ch i im Hcols Hgap Hmargin Hall
         Hcw Hch Hi x y ox oy.
  apply max_of_is_max in Hcw, Hch.
  pose proof (is_max_nonneg _ _ _ Hcw (proper_widths _ Hall)) as Pw.
  pose proof (is_max_nonneg _ _ _ Hch (proper_heights _ Hall)) as Ph.
  pose proof (is_max_widths _ _ _ _ _ Hcw Hi) as Lw.
  pose proof (is_max_widths _ _ _ _ _ Hch Hi) as Lh.
  destruct (paste_offset_centered cols grid_gap margin cw ch Hcols Hgap
              Hmargin (Z.of_nat i) im) as (E & Hx & Hy); try lia.
  unfold centered_offset in *. simpl in Hx, Hy.
  subst ox oy x y. repeat split; try assumption.
  apply orb_false_iff. split; apply Z.ltb_ge; assumption.
Qed.

Lemma centering_never_negative_witness :
  0 <= 20 + (Z.of_nat 1 mod 2) * (300 + 10) + (300 - 100) / 2 /\
  0 <= 20 + (Z.of_nat 1 / 2) * (200 + 10) + (200 - 100) / 2 /\
  ((20 + (Z.of_nat 1 mod 2) * (300 + 10) + (300 - 100) / 2 <? 0)
   || (20 + (Z.of_nat 1 / 2) * (200 + 10) + (200 - 100) / 2 <? 0)) = false /\
  paste_offset 2 10 20 300 200 (Z.of_nat 1) (plain 100 100 white)
  = (20 + (Z.of_nat 1 mod 2) * (300 + 10) + (300 - 100) / 2,
     20 + (Z.of_nat 1 / 2) * (200 + 10) + (200 - 100) / 2).
Proof.
  apply (centering_never_negative img3 2 10 20 300 200 1 (plain 100 100 white));
    try lia; try reflexivity.
  repeat constructor; simpl; lia.
Defined.

(** C5. In a layout that the block produces for at least one column and
    non-negative gap and margin, the placed boxes (paste offset, image
    size) of two different indices share no pixel. *)
Theorem placements_do_not_overlap :
  forall (imgs : list Image) (cols grid_gap margin : Z)
         (sheet_w sheet_h : option Z) (bg_rgb : color) (L : Layout)
         (i j : nat) (im_i im_j : Image) (off_i off_j : Z * Z),
    1 <= cols -> 0 <= grid_gap -> 0 <= margin ->
    Forall proper imgs ->
    contact_sheet imgs cols grid_gap margin sheet_w sheet_h bg_rgb = OK L ->
    i <> j ->
    nth_error imgs i = Some im_i -> nth_error imgs j = Some im_j ->
    nth_error (offsets L) i = Some off_i ->
    nth_error (offsets L) j = Some off_j ->
    ~ boxes_intersect off_i (size im_i) off_j (size im_j).
Proof.
  intros imgs cols grid_gap margin sheet_w sheet_h bg_rgb L i j im_i im_j
         off_i off_j Hcols Hgap Hmargin Hall Hrun Hij Hi Hj Hoi Hoj.
  apply contact_sheet_ok in Hrun.
  destruct Hrun as (Hcw & Hch & Hoffs & _).
  rewrite Hoffs in Hoi, Hoj.
  rewrite (offsets_nth _ _ _ _ _ _ _ _ Hi) in Hoi.
  rewrite (offsets_nth _ _ _ _ _ _ _ _ Hj) in Hoj.
  inversion Hoi; subst off_i; clear Hoi.
  inversion Hoj; subst off_j; clear Hoj.
  apply max_of_is_max in Hcw, Hch.
  pose proof (is_max_nonneg _ _ _ Hcw (proper_widths _ Hall)) as Pw.
  pose proof (is_max_nonneg _ _ _ Hch (proper_heights _ Hall)) as Ph.
  pose proof (is_max_widths _ _ _ _ _ Hcw Hi) as Lwi.
  pose proof (is_max_widths _ _ _ _ _ Hch Hi) as Lhi.
  pose proof (is_max_widths _ _ _ _ _ Hcw Hj) as Lwj.
  pose proof (is_max_widths _ _ _ _ _ Hch Hj) as Lhj.
  assert (Pi : proper im_i)
    by (rewrite Forall_forall in Hall; apply Hall; eapply nth_error_In; eauto).
  assert (Pj : proper im_j)
    by (rewrite Forall_forall in Hall; apply Hall; eapply nth_error_In; eauto).
  destruct Pi as [Pi1 Pi2], Pj as [Pj1 Pj2].
  destruct (paste_offset_centered cols grid_gap margin (cell_w L) (cell_h L)
              Hcols Hgap Hmargin (Z.of_nat i) im_i) as (Ei & _); try lia.
  destruct (paste_offset_centered cols grid_gap margin (cell_w L) (cell_h L)
              Hcols Hgap Hmargin (Z.of_nat j) im_j) as (Ej & _); try lia.
  rewrite Ei, Ej. intros (px & py & Bi & Bj). simpl in Bi, Bj.
  apply centered_in_cell in Bi; try lia.
  apply centered_in_cell in Bj; try lia.
  apply (cells_disjoint cols grid_gap margin (cell_w L) (cell_h L) Hcols Hgap
           (Z.of_nat i) (Z.of_nat j) px py); try lia; assumption.
Qed.

(** C9. With no image entering the grid, the block raises at line 299
    ([max] of an empty sequence) in either canvas mode: no rows, canvas or
    offsets are computed. *)
Theorem contact_sheet_rejects_empty :
  forall (font : Font) (show_caption : bool) (caption_font : Z)
         (cols grid_gap margin : Z) (sheet_w sheet_h : option Z)
         (bg_rgb : color),
    contact_sheet [] cols grid_gap margin sheet_w sheet_h bg_rgb
    = Raise max_of_empty /\
    make_contact_sheet font [] show_caption caption_font cols grid_gap margin
      sheet_w sheet_h bg_rgb
    = Raise max_of_empty.
Proof.
  intros. split; reflexivity.
Qed.

(** C8. The text ["abc"] does not parse. The target-canvas field shows the
    error and takes 1024 by 768; the sheet-size field takes 2480 by 3508
    and shows nothing. *)
Theorem size_fields_on_abc :
  parse_size "abc" = Raise (ValueError msg_format) /\
  target_canvas_field "abc" = ([st_error msg_format], (1024, 768)) /\
  sheet_size_field "abc" = ([], (2480, 3508)).
Proof.
  repeat split; reflexivity.
Qed.

(** Both fields go on with their default on every text that does not
    parse; only the target-canvas field reports it. *)
Lemma size_fields_fallback (text : string) (e : exn) :
  parse_size text = Raise e ->
  target_canvas_field text = ([st_error (str_of_exn e)], (1024, 768)) /\
  sheet_size_field text = ([], (2480, 3508)).
Proof.
  intros H. unfold target_canvas_field, sheet_size_field. now rewrite H.
Qed.
(* ===================================================================== *)
(** * Binary64 arithmetic                                                 *)
(* ===================================================================== *)

Section Digits.

Lemma digits2_bounds (p : positive) :
  2 ^ (Zpos (digits2_pos p) - 1) <= Zpos p < 2 ^ Zpos (digits2_pos p).
Proof.
  induction p as [p IH|p IH|]; simpl digits2_pos.
  - rewrite Pos2Z.inj_succ.
    replace (Z.succ (Zpos (digits2_pos p)) - 1) with (Z.succ (Zpos (digits2_pos p) - 1)) by lia.
    rewrite !Z.pow_succ_r by lia. lia.
  - rewrite Pos2Z.inj_succ.
    replace (Z.succ (Zpos (digits2_pos p)) - 1) with (Z.succ (Zpos (digits2_pos p) - 1)) by lia.
    rewrite !Z.pow_succ_r by lia. lia.
  - simpl. lia.
Qed.

Lemma digits2_unique (p : positive) (d : Z) :
  2 ^ (d - 1) <= Zpos p < 2 ^ d -> Zpos (digits2_pos p) = d.
Proof.
  intros [Hlo Hhi]. pose proof (digits2_bounds p) as [Blo Bhi].
  set (D := Zpos (digits2_pos p)) in *.
  assert (HD : 0 < D) by (unfold D; lia).
  destruct (Z.lt_trichotomy D d) as [L|[E|G]]; [|assumption|].
  - assert (2 ^ D <= 2 ^ (d - 1)) by (apply Z.pow_le_mono_r; lia). lia.
  - assert (0 <= d \/ d < 0) as [Hd|Hd] by lia.
    + assert (2 ^ d <= 2 ^ (D - 1)) by (apply Z.pow_le_mono_r; lia). lia.
    + rewrite (Z.pow_neg_r 2 d) in Hhi by lia. lia.
Qed.

Lemma Zdigits2_pos (p : positive) : Zdigits2 (Zpos p) = Zpos (digits2_pos p).
Proof. reflexivity. Qed.

Lemma iter_xO (p k : positive) : Zpos (Pos.iter xO p k) = Zpos p * 2 ^ Zpos k.
Proof.
  induction k as [|k IH] using Pos.peano_ind.
  - simpl. lia.
  - rewrite Pos.iter_succ, Pos2Z.inj_xO, IH, Pos2Z.inj_succ, Z.pow_succ_r by lia.
    lia.
Qed.

End Digits.

Section Shifts.

Lemma iter_pos_nat {A : Type} (f : A -> A) (p : positive) (x : A) :
  iter_pos f p x = Nat.iter (Pos.to_nat p) f x.
Proof.
  revert x. induction p as [p IH|p IH|]; intros x; cbn [iter_pos].
  - rewrite !IH, Pos2Nat.inj_xI.
    replace (S (2 * Pos.to_nat p)) with (Pos.to_nat p + (Pos.to_nat p + 1))%nat
      by lia.
    now rewrite !Nat.iter_add.
  - rewrite !IH, Pos2Nat.inj_xO.
    replace (2 * Pos.to_nat p)%nat with (Pos.to_nat p + Pos.to_nat p)%nat
      by lia.
    now rewrite Nat.iter_add.
  - reflexivity.
Qed.

Lemma shr_1_m (mrs : shr_record) :
  0 <= shr_m mrs -> shr_m (shr_1 mrs) = shr_m mrs / 2.
Proof.
  destruct mrs as [m r s]. simpl. intros Hm.
  destruct m as [|[p|p|]|p]; simpl; try reflexivity; try lia.
  - rewrite Pos2Z.inj_xI. apply Z.div_unique with 1; lia.
  - rewrite Pos2Z.inj_xO. apply Z.div_unique with 0; lia.
Qed.

Lemma shr_iter_m (n : nat) (mrs : shr_record) :
  0 <= shr_m mrs ->
  shr_m (Nat.iter n shr_1 mrs) = shr_m mrs / 2 ^ Z.of_nat n.
Proof.
  intros Hm. induction n as [|n IH].
  - simpl. now rewrite Z.div_1_r.
  - rewrite Nat.iter_succ, shr_1_m, IH.
    + rewrite Nat2Z.inj_succ, Z.pow_succ_r by lia.
      rewrite Z.div_div by lia. f_equal. lia.
    + rewrite IH. apply Z.div_pos; lia.
Qed.

Lemma shr_iter_exact (n : nat) (m : positive) :
  Nat.iter n shr_1 (Build_shr_record (Zpos m * 2 ^ Z.of_nat n) false false)
  = Build_shr_record (Zpos m) false false.
Proof.
  revert m. induction n as [|n IH]; intros m.
  - simpl. f_equal. lia.
  - rewrite Nat.iter_succ.
    replace (Zpos m * 2 ^ Z.of_nat (S n)) with (Zpos (m~0) * 2 ^ Z.of_nat n)
      by (rewrite Nat2Z.inj_succ, Z.pow_succ_r by lia; lia).
    now rewrite IH.
Qed.

End Shifts.

Section ShiftedOut.

Lemma shr_1_bits (mrs : shr_record) :
  0 <= shr_m mrs ->
  0 <= shr_m (shr_1 mrs) /\
  shr_m mrs = 2 * shr_m (shr_1 mrs) + b2z (shr_r (shr_1 mrs)) /\
  shr_s (shr_1 mrs) = shr_r mrs || shr_s mrs.
Proof.
  destruct mrs as [m r s]. cbn [shr_m shr_r shr_s]. intros Hm.
  destruct m as [|[p|p|]|p]; try lia; cbn [shr_1 shr_m shr_r shr_s b2z];
    repeat split; lia.
Qed.

(** After [n] shifts of an exact mantissa [M]: twice [M] is the mantissa
    left, the round bit and the rest [t], which the sticky bit tells from
    zero. *)
Lemma shr_iter_rest (n : nat) (M : Z) :
  0 <= M ->
  let mrs := Nat.iter n shr_1 (Build_shr_record M false false) in
  0 <= shr_m mrs /\
  exists t : Z,
    0 <= t < 2 ^ Z.of_nat n /\
    2 * M = shr_m mrs * (2 * 2 ^ Z.of_nat n)
            + b2z (shr_r mrs) * 2 ^ Z.of_nat n + t /\
    shr_s mrs = negb (t =? 0).
Proof.
  intros HM. induction n as [|n IH]; cbv zeta.
  - cbn [Nat.iter nat_rect shr_m shr_r shr_s b2z]. split; [assumption|].
    exists 0. change (2 ^ Z.of_nat 0) with 1. repeat split; lia.
  - rewrite Nat.iter_succ. cbv zeta in IH.
    destruct IH as (Hm & t & Ht & Hsum & Hs).
    set (mrs := Nat.iter n shr_1 (Build_shr_record M false false)) in *.
    destruct (shr_1_bits mrs Hm) as (Hm' & Hhalf & Hsticky).
    rewrite Nat2Z.inj_succ, Z.pow_succ_r by lia.
    assert (P : 0 < 2 ^ Z.of_nat n) by (apply Z.pow_pos_nonneg; lia).
    split; [assumption|].
    exists (b2z (shr_r mrs) * 2 ^ Z.of_nat n + t).
    split; [unfold b2z; destruct (shr_r mrs); lia|].
    split; [rewrite Hsum, Hhalf; ring|].
    rewrite Hsticky, Hs. unfold b2z.
    destruct (shr_r mrs); destruct (Z.eqb_spec t 0); cbn [orb negb];
      match goal with
      | |- _ = negb (?a =? 0) => destruct (Z.eqb_spec a 0); [lia|reflexivity]
      | |- false = negb (?a =? 0) => destruct (Z.eqb_spec a 0); [reflexivity|lia]
      | _ => idtac
      end.
Qed.

(** Rounding what is left to nearest: the error is at most half a unit. *)
Lemma shr_iter_nearest (n : nat) (M : Z) :
  0 <= M ->
  let mrs := Nat.iter n shr_1 (Build_shr_record M false false) in
  Z.abs (2 * M
         - 2 * round_nearest_even (shr_m mrs) (loc_of_shr_record mrs)
           * 2 ^ Z.of_nat n)
  <= 2 ^ Z.of_nat n.
Proof.
  intros HM. cbv zeta.
  destruct (shr_iter_rest n M HM) as (Hm & t & Ht & Hsum & Hs).
  destruct (Nat.iter n shr_1 (Build_shr_record M false false)) as [m r s].
  cbn [shr_m shr_r shr_s] in *.
  assert (P : 0 < 2 ^ Z.of_nat n) by (apply Z.pow_pos_nonneg; lia).
  destruct r, s; cbn [loc_of_shr_record round_nearest_even b2z] in *;
    destruct (Z.eqb_spec t 0); try discriminate;
    try destruct (Z.even m); nia.
Qed.

End ShiftedOut.

Section Rounding.

Lemma fexp_normal (x : Z) : -1021 <= x -> fexp prec emax x = x - 53.
Proof.
  intros H. unfold fexp, emin, prec, emax. lia.
Qed.

Lemma shr_fexp_digits (p : positive) (e d : Z) (l : location) :
  Zpos (digits2_pos p) = d -> -1021 <= d + e ->
  shr_fexp prec emax (Zpos p) e l
  = shr (shr_record_of_loc (Zpos p) l) e (d - 53).
Proof.
  intros Hd He. unfold shr_fexp. rewrite Zdigits2_pos, Hd, fexp_normal by lia.
  f_equal. lia.
Qed.

Lemma shr_record_of_loc_m (m : Z) (l : location) :
  shr_m (shr_record_of_loc m l) = m.
Proof. now destruct l as [|[| |]]. Qed.

Lemma round_nearest_even_range (m : Z) (l : location) :
  m <= round_nearest_even m l <= m + 1.
Proof.
  destruct l as [|[| |]]; simpl; try lia. destruct (Z.even m); lia.
Qed.

(** The second half of [binary_round_aux]: a rounded mantissa of 53 bits,
    or [2^53] after a carry, is kept or halved. *)
Lemma round_carry (m0 e0 : Z) :
  2 ^ 52 <= m0 <= 2 ^ 53 -> -1074 <= e0 <= 970 ->
  (let '(mrs, e) := shr_fexp prec emax m0 e0 loc_Exact in
   match shr_m mrs with
   | Z0 => S754_zero false
   | Zpos m => if e <=? emax - prec then S754_finite false m e
               else S754_infinity false
   | Zneg _ => S754_nan
   end)
  = if m0 =? 2 ^ 53 then S754_finite false 4503599627370496 (e0 + 1)
    else S754_finite false (Z.to_pos m0) e0.
Proof.
  intros Hm He. destruct (Z.eqb_spec m0 (2 ^ 53)) as [->|Hne].
  - change (2 ^ 53) with (Zpos 9007199254740992).
    rewrite (shr_fexp_digits _ e0 54) by (reflexivity || lia).
    simpl.
    match goal with
    | |- context [?a <=? ?b] => destruct (Z.leb_spec a b)
    end; [reflexivity | lia].
  - destruct m0 as [|p|p]; try lia.
    rewrite (shr_fexp_digits p e0 53); [|apply digits2_unique; lia|lia].
    simpl.
    match goal with
    | |- context [?a <=? ?b] => destruct (Z.leb_spec a b)
    end; [reflexivity | lia].
Qed.

(** [binary_round_aux] on a mantissa of 53 bits. *)
Lemma binary_round_aux_53 (q e : Z) (l : location) :
  2 ^ 52 <= q < 2 ^ 53 -> -1074 <= e <= 960 ->
  binary_round_aux prec emax false q e l
  = let m0 := round_nearest_even q l in
    if m0 =? 2 ^ 53 then S754_finite false 4503599627370496 (e + 1)
    else S754_finite false (Z.to_pos m0) e.
Proof.
  intros Hq He. unfold binary_round_aux.
  destruct q as [|p|p]; try lia.
  rewrite (shr_fexp_digits p e 53); [|apply digits2_unique; lia|lia].
  change (53 - 53) with 0. cbn [shr].
  replace (loc_of_shr_record (shr_record_of_loc (Zpos p) l)) with l
    by now destruct l as [|[| |]].
  rewrite shr_record_of_loc_m.
  pose proof (round_nearest_even_range (Zpos p) l).
  apply round_carry; lia.
Qed.

(** [binary_round_aux] on a mantissa of 54 bits: one bit is shifted out
    before rounding. *)
Lemma binary_round_aux_54 (q e : Z) (l : location) :
  2 ^ 53 <= q < 2 ^ 54 -> -1074 <= e <= 960 ->
  binary_round_aux prec emax false q e l
  = let m0 := round_nearest_even (q / 2)
                (loc_of_shr_record (shr_1 (shr_record_of_loc q l))) in
    if m0 =? 2 ^ 53 then S754_finite false 4503599627370496 (e + 2)
    else S754_finite false (Z.to_pos m0) (e + 1).
Proof.
  intros Hq He. unfold binary_round_aux.
  destruct q as [|p|p]; try lia.
  rewrite (shr_fexp_digits p e 54); [|apply digits2_unique; lia|lia].
  change (54 - 53) with 1. cbn [shr iter_pos].
  rewrite shr_1_m by (rewrite shr_record_of_loc_m; lia).
  rewrite shr_record_of_loc_m.
  set (l' := loc_of_shr_record (shr_1 (shr_record_of_loc (Zpos p) l))).
  pose proof (round_nearest_even_range (Zpos p / 2) l').
  assert (2 ^ 52 <= Zpos p / 2 < 2 ^ 53).
  { split; [apply Z.div_le_lower_bound | apply Z.div_lt_upper_bound]; lia. }
  rewrite round_carry by lia. cbv zeta.
  replace (e + 1 + 1) with (e + 2) by lia. reflexivity.
Qed.

End Rounding.

Section Division.

Lemma new_location_compare (b r : Z) :
  0 < b -> 0 <= r < b ->
  new_location b r
  = if r =? 0 then loc_Exact else loc_Inexact (2 * r ?= b).
Proof.
  intros Hb Hr. unfold new_location.
  destruct (Z.even b) eqn:Eb.
  - reflexivity.
  - unfold new_location_odd. destruct (r =? 0); [reflexivity|].
    assert (Ho : Z.odd b = true) by (rewrite <- Z.negb_even, Eb; reflexivity).
    apply Z.odd_spec in Ho. destruct Ho as [k Hk].
    destruct (Z.compare_spec (2 * r + 1) b), (Z.compare_spec (2 * r) b);
      try reflexivity; lia.
Qed.

(** The quotient of two positive integers below [2^53], before rounding:
    a mantissa of 53 or 54 bits and what is left. *)
Lemma div_core_int (a b : positive) :
  Zpos a < 2 ^ 53 -> Zpos b < 2 ^ 53 ->
  exists s : Z,
    1 <= s <= 105 /\
    2 ^ 52 <= Zpos a * 2 ^ s / Zpos b < 2 ^ 54 /\
    SFdiv_core_binary prec emax (Zpos a) 0 (Zpos b) 0
    = (Zpos a * 2 ^ s / Zpos b, - s,
       new_location (Zpos b) ((Zpos a * 2 ^ s) mod Zpos b)).
Proof.
  intros Ha Hb.
  pose proof (digits2_bounds a) as [Alo Ahi].
  pose proof (digits2_bounds b) as [Blo Bhi].
  set (d1 := Zpos (digits2_pos a)) in *.
  set (d2 := Zpos (digits2_pos b)) in *.
  assert (Hd1 : 1 <= d1 <= 53).
  { split; [unfold d1; lia|].
    destruct (Z.le_gt_cases d1 53) as [|G]; [assumption|].
    assert (2 ^ 53 <= 2 ^ (d1 - 1)) by (apply Z.pow_le_mono_r; lia). lia. }
  assert (Hd2 : 1 <= d2 <= 53).
  { split; [unfold d2; lia|].
    destruct (Z.le_gt_cases d2 53) as [|G]; [assumption|].
    assert (2 ^ 53 <= 2 ^ (d2 - 1)) by (apply Z.pow_le_mono_r; lia). lia. }
  exists (53 - d1 + d2). split; [lia|].
  set (s := 53 - d1 + d2).
  assert (Ps : 0 < 2 ^ s) by (apply Z.pow_pos_nonneg; unfold s; lia).
  assert (Hlow : Zpos b * 2 ^ 52 <= Zpos a * 2 ^ s).
  { assert (E : 2 ^ d2 * 2 ^ 52 = 2 ^ (d1 - 1) * 2 ^ s)
      by (rewrite <- !Z.pow_add_r by (unfold s; lia); f_equal; unfold s; lia).
    assert (Zpos b * 2 ^ 52 <= 2 ^ d2 * 2 ^ 52)
      by (apply Z.mul_le_mono_nonneg_r; lia).
    assert (2 ^ (d1 - 1) * 2 ^ s <= Zpos a * 2 ^ s)
      by (apply Z.mul_le_mono_nonneg_r; lia).
    lia. }
  assert (Hup : Zpos a * 2 ^ s < Zpos b * 2 ^ 54).
  { assert (E : 2 ^ d1 * 2 ^ s = 2 ^ (d2 - 1) * 2 ^ 54)
      by (rewrite <- !Z.pow_add_r by (unfold s; lia); f_equal; unfold s; lia).
    assert (Zpos a * 2 ^ s < 2 ^ d1 * 2 ^ s)
      by (apply Z.mul_lt_mono_pos_r; lia).
    assert (2 ^ (d2 - 1) * 2 ^ 54 <= Zpos b * 2 ^ 54)
      by (apply Z.mul_le_mono_nonneg_r; lia).
    lia. }
  split.
  { split; [apply Z.div_le_lower_bound | apply Z.div_lt_upper_bound]; lia. }
  unfold SFdiv_core_binary. rewrite !Zdigits2_pos. fold d1 d2.
  replace (Z.min (fexp prec emax (d1 + 0 - (d2 + 0))) (0 - 0)) with (- s)
    by (unfold fexp, emin, prec, emax, s; lia).
  replace (0 - 0 - - s) with s by lia.
  destruct s as [|sp|sp] eqn:Es; try lia.
  rewrite Z.shiftl_mul_pow2 by lia.
  unfold Z.div, Z.modulo.
  destruct (Z.div_eucl (Zpos a * 2 ^ Zpos sp) (Zpos b)) as [q r].
  reflexivity.
Qed.

(** Rounding the quotient to the nearest mantissa, the error is at most
    half of the divisor. *)
Lemma round_quotient_53 (X b : Z) :
  0 < b -> 0 <= X ->
  2 * Z.abs (X - round_nearest_even (X / b) (new_location b (X mod b)) * b)
  <= b.
Proof.
  intros Hb HX.
  pose proof (Z.mod_pos_bound X b Hb) as Hr.
  pose proof (Z.div_mod X b ltac:(lia)) as HX'.
  rewrite new_location_compare by lia.
  set (q := X / b) in *. set (r := X mod b) in *.
  destruct (Z.eqb_spec r 0) as [E|E]; cbn [round_nearest_even].
  - lia.
  - destruct (Z.compare_spec (2 * r) b); cbn [round_nearest_even];
      [destruct (Z.even q)| |]; lia.
Qed.

Lemma round_quotient_54 (X b : Z) :
  0 < b -> 0 < X / b ->
  Z.abs (X - 2 * round_nearest_even (X / b / 2)
                   (loc_of_shr_record
                      (shr_1 (shr_record_of_loc (X / b)
                                (new_location b (X mod b))))) * b)
  <= b.
Proof.
  intros Hb Hq.
  pose proof (Z.mod_pos_bound X b Hb) as Hr.
  pose proof (Z.div_mod X b ltac:(lia)) as HX'.
  rewrite new_location_compare by lia.
  set (q := X / b) in *. set (r := X mod b) in *.
  destruct q as [|[p|p|]|p] eqn:Eq; try lia.
  - replace (Zpos p~1 / 2) with (Zpos p)
      by (rewrite Pos2Z.inj_xI; apply Z.div_unique with 1; lia).
    rewrite Pos2Z.inj_xI in HX'.
    destruct (Z.eqb_spec r 0) as [E|E].
    + cbn [shr_record_of_loc shr_1 loc_of_shr_record round_nearest_even orb].
      destruct (Z.even (Zpos p)); lia.
    + destruct (2 * r ?= b);
        cbn [shr_record_of_loc shr_1 loc_of_shr_record round_nearest_even orb];
        lia.
  - replace (Zpos p~0 / 2) with (Zpos p)
      by (rewrite Pos2Z.inj_xO; apply Z.div_unique with 0; lia).
    rewrite Pos2Z.inj_xO in HX'.
    destruct (Z.eqb_spec r 0) as [E|E].
    + cbn [shr_record_of_loc shr_1 loc_of_shr_record round_nearest_even orb].
      lia.
    + destruct (2 * r ?= b);
        cbn [shr_record_of_loc shr_1 loc_of_shr_record round_nearest_even orb];
        lia.
  - change (1 / 2) with 0.
    destruct (Z.eqb_spec r 0) as [E|E].
    + cbn [shr_record_of_loc shr_1 loc_of_shr_record round_nearest_even orb
           Z.even].
      lia.
    + destruct (2 * r ?= b);
        cbn [shr_record_of_loc shr_1 loc_of_shr_record round_nearest_even orb
             Z.even];
        lia.
Qed.

(** [a / b] for two positive integers below [2^53]: a normal float
    [m * 2^e] at most half a unit of its last place away from the
    quotient. *)
Lemma SFdiv_int (a b : positive) :
  Zpos a < 2 ^ 53 -> Zpos b < 2 ^ 53 ->
  exists (m : positive) (e : Z),
    SFdiv prec emax (S754_finite false a 0) (S754_finite false b 0)
    = S754_finite false m e /\
    2 ^ 52 <= Zpos m < 2 ^ 53 /\
    -105 <= e <= 1 /\
    Z.abs (Zpos a * 2 ^ (1 - e) - 2 * Zpos m * Zpos b) <= Zpos b.
Proof.
  intros Ha Hb.
  destruct (div_core_int a b Ha Hb) as (s & Hs & Hq & Hcore).
  unfold SFdiv. cbn [xorb]. rewrite Hcore.
  set (X := Zpos a * 2 ^ s) in *.
  assert (HX : 0 <= X) by (unfold X; apply Z.mul_nonneg_nonneg; [lia|apply Z.pow_nonneg; lia]).
  destruct (Z.lt_ge_cases (X / Zpos b) (2 ^ 53)) as [L|G].
  - rewrite binary_round_aux_53 by lia. cbv zeta.
    pose proof (round_quotient_53 X (Zpos b) ltac:(lia) HX) as Herr.
    pose proof (round_nearest_even_range (X / Zpos b)
                  (new_location (Zpos b) (X mod Zpos b))) as Hrange.
    set (m0 := round_nearest_even (X / Zpos b)
                 (new_location (Zpos b) (X mod Zpos b))) in *.
    destruct (Z.eqb_spec m0 (2 ^ 53)) as [E|E].
    + exists 4503599627370496%positive, (- s + 1).
      split; [reflexivity|]. split; [lia|]. split; [lia|].
      replace (1 - (- s + 1)) with s by lia. fold X. lia.
    + exists (Z.to_pos m0), (- s).
      split; [reflexivity|].
      rewrite Z2Pos.id by lia. split; [lia|]. split; [lia|].
      replace (1 - - s) with (Z.succ s) by lia.
      rewrite Z.pow_succ_r by lia.
      replace (Zpos a * (2 * 2 ^ s)) with (2 * X) by (unfold X; lia). lia.
  - rewrite binary_round_aux_54 by lia. cbv zeta.
    pose proof (round_quotient_54 X (Zpos b) ltac:(lia) ltac:(lia)) as Herr.
    pose proof (round_nearest_even_range (X / Zpos b / 2)
                  (loc_of_shr_record
                     (shr_1 (shr_record_of_loc (X / Zpos b)
                               (new_location (Zpos b) (X mod Zpos b))))))
      as Hrange.
    set (m0 := round_nearest_even (X / Zpos b / 2) _) in *.
    assert (2 ^ 52 <= X / Zpos b / 2 < 2 ^ 53).
    { split; [apply Z.div_le_lower_bound | apply Z.div_lt_upper_bound]; lia. }
    destruct (Z.eqb_spec m0 (2 ^ 53)) as [E|E].
    + exists 4503599627370496%positive, (- s + 2).
      split; [reflexivity|]. split; [lia|]. split; [lia|].
      replace (1 - (- s + 2)) with (s - 1) by lia.
      assert (EX : X = 2 * (Zpos a * 2 ^ (s - 1))).
      { unfold X. replace s with (Z.succ (s - 1)) at 1 by lia.
        rewrite Z.pow_succ_r by lia. lia. }
      lia.
    + exists (Z.to_pos m0), (- s + 1).
      split; [reflexivity|].
      rewrite Z2Pos.id by lia. split; [lia|]. split; [lia|].
      replace (1 - (- s + 1)) with s by lia. fold X. lia.
Qed.

End Division.

Section PythonFloats.

(** [a / b] on positive integers below [2^53] returns a normal float
    within half a unit of its last place of the quotient. *)
Lemma int_truediv_pos (a b : Z) :
  0 < a < 2 ^ 53 -> 0 < b < 2 ^ 53 ->
  exists (m : positive) (e : Z),
    int_truediv a b = OK (S754_finite false m e) /\
    2 ^ 52 <= Zpos m < 2 ^ 53 /\
    -105 <= e <= 1 /\
    Z.abs (a * 2 ^ (1 - e) - 2 * Zpos m * b) <= b.
Proof.
  intros Ha Hb. destruct a as [|a|a]; try lia. destruct b as [|b|b]; try lia.
  destruct (SFdiv_int a b) as (m & e & Hdiv & Hm & He & Herr); try lia.
  exists m, e. unfold int_truediv. cbn [Z.eqb raw_int]. rewrite Hdiv.
  repeat split; try assumption; lia.
Qed.

(** A quotient of at least one is not below [1.0]. *)
Lemma int_truediv_ge_one (a b : Z) (x : float) :
  0 < b <= a -> a < 2 ^ 53 ->
  int_truediv a b = OK x -> float_lt x one = false.
Proof.
  intros Hb Ha Hx.
  destruct (int_truediv_pos a b) as (m & e & Hdiv & Hm & He & Herr); try lia.
  rewrite Hdiv in Hx. inversion Hx; subst x; clear Hx.
  assert (Hge : -52 <= e).
  { destruct (Z.le_gt_cases (-52) e) as [|G]; [assumption|exfalso].
    assert (P : 2 ^ 54 <= 2 ^ (1 - e)) by (apply Z.pow_le_mono_r; lia).
    assert (a * 2 ^ 54 <= a * 2 ^ (1 - e)) by (apply Z.mul_le_mono_nonneg_l; lia).
    assert (b * 2 ^ 54 <= a * 2 ^ 54) by (apply Z.mul_le_mono_nonneg_r; lia).
    assert (2 * Zpos m * b <= (2 ^ 54 - 2) * b)
      by (apply Z.mul_le_mono_nonneg_r; lia).
    lia. }
  unfold float_lt, SFltb, one. cbn [SFcompare].
  destruct (Z.compare_spec e (-52)) as [E|L|G]; try reflexivity; try lia.
  rewrite Pos.compare_cont_spec. cbn [Pos.switch_Eq].
  rewrite Pos2Z.inj_compare.
  destruct (Z.compare_spec (Zpos m) (Zpos 4503599627370496)); try reflexivity.
  lia.
Qed.


End PythonFloats.

Section Products.

(** [float(w)] for a positive integer below [2^53] is exact. *)
Lemma float_of_int_pos (w : Z) :
  0 < w < 2 ^ 53 ->
  exists (m : positive) (e : Z),
    float_of_int w = OK (S754_finite false m e) /\
    2 ^ 52 <= Zpos m < 2 ^ 53 /\
    -52 <= e <= 0 /\
    Zpos m = w * 2 ^ (- e).
Proof.
  intros Hw. destruct w as [|w|w]; try lia.
  pose proof (digits2_bounds w) as [Wlo Whi].
  set (d := Zpos (digits2_pos w)) in *.
  assert (Hd : 1 <= d <= 53).
  { split; [unfold d; lia|].
    destruct (Z.le_gt_cases d 53) as [|G]; [assumption|].
    assert (2 ^ 53 <= 2 ^ (d - 1)) by (apply Z.pow_le_mono_r; lia). lia. }
  unfold float_of_int, binary_normalize, binary_round.
  fold d. rewrite fexp_normal by lia.
  unfold shl_align.
  replace (d + 0 - 53 - 0) with (d - 53) by lia.
  destruct (d - 53) as [|k|k] eqn:Ek; try lia.
  - assert (E52 : 2 ^ (d - 1) = 2 ^ 52) by (f_equal; lia).
    rewrite E52 in Wlo.
    rewrite binary_round_aux_53 by lia. cbn [round_nearest_even].
    destruct (Z.eqb_spec (Zpos w) (2 ^ 53)); [lia|].
    exists w, 0. cbn [is_infinite Z.to_pos].
    repeat split; try lia.
  - assert (Hk : Zpos k = 53 - d) by lia.
    assert (Hq : 2 ^ 52 <= Zpos w * 2 ^ Zpos k < 2 ^ 53).
    { rewrite Hk.
      assert (E1 : 2 ^ 52 = 2 ^ (d - 1) * 2 ^ (53 - d))
        by (rewrite <- Z.pow_add_r by lia; f_equal; lia).
      assert (E2 : 2 ^ 53 = 2 ^ d * 2 ^ (53 - d))
        by (rewrite <- Z.pow_add_r by lia; f_equal; lia).
      assert (0 < 2 ^ (53 - d)) by (apply Z.pow_pos_nonneg; lia).
      rewrite E1, E2. split.
      - apply Z.mul_le_mono_nonneg_r; lia.
      - apply Z.mul_lt_mono_pos_r; lia. }
    rewrite iter_xO.
    replace (d + 0 - 53) with (Zneg k) by lia.
    rewrite binary_round_aux_53 by lia. cbn [round_nearest_even].
    destruct (Z.eqb_spec (Zpos w * 2 ^ Zpos k) (2 ^ 53)); [lia|].
    exists (Z.to_pos (Zpos w * 2 ^ Zpos k)), (Zneg k).
    cbn [is_infinite]. rewrite Z2Pos.id by lia.
    repeat split; try lia.
Qed.

Lemma digits_product (m1 m2 : positive) :
  2 ^ 52 <= Zpos m1 < 2 ^ 53 -> 2 ^ 52 <= Zpos m2 < 2 ^ 53 ->
  Zpos (digits2_pos (m1 * m2)) = 105 \/ Zpos (digits2_pos (m1 * m2)) = 106.
Proof.
  intros H1 H2.
  assert (Hlo : 2 ^ 104 <= Zpos (m1 * m2)).
  { rewrite Pos2Z.inj_mul. change (2 ^ 104) with (2 ^ 52 * 2 ^ 52).
    apply Z.mul_le_mono_nonneg; lia. }
  assert (Hhi : Zpos (m1 * m2) < 2 ^ 106).
  { rewrite Pos2Z.inj_mul. change (2 ^ 106) with (2 ^ 53 * 2 ^ 53).
    apply Z.mul_lt_mono_nonneg; lia. }
  destruct (Z.lt_ge_cases (Zpos (m1 * m2)) (2 ^ 105)).
  - left. apply digits2_unique. change (105 - 1) with 104. lia.
  - right. apply digits2_unique. change (106 - 1) with 105. lia.
Qed.

(** [binary_round_aux] on an exact mantissa of [D > 53] bits: [D - 53]
    bits are shifted out and the rest is rounded to nearest. *)
Lemma binary_round_aux_exact (M : positive) (e D : Z) :
  Zpos (digits2_pos M) = D -> 53 < D -> -1021 <= D + e <= 1000 ->
  exists (m : positive) (k : Z),
    binary_round_aux prec emax false (Zpos M) e loc_Exact
    = S754_finite false m (e + k) /\
    2 ^ 52 <= Zpos m < 2 ^ 53 /\
    D - 53 <= k <= D - 52 /\
    Z.abs (2 * Zpos M - 2 * Zpos m * 2 ^ k) <= 2 ^ k.
Proof.
  intros HD Hwide He.
  pose proof (digits2_bounds M) as HM. rewrite HD in HM.
  unfold binary_round_aux.
  rewrite (shr_fexp_digits M e D) by (assumption || lia).
  destruct (D - 53) as [|n|n] eqn:En; try lia.
  cbn [shr shr_record_of_loc]. rewrite iter_pos_nat.
  pose proof (shr_iter_nearest (Pos.to_nat n) (Zpos M) ltac:(lia)) as Herr.
  cbv zeta in Herr. rewrite positive_nat_Z in Herr.
  set (mrs := Nat.iter (Pos.to_nat n) shr_1
                (Build_shr_record (Zpos M) false false)) in *.
  assert (Hm : shr_m mrs = Zpos M / 2 ^ Zpos n).
  { unfold mrs. rewrite shr_iter_m by (cbn [shr_m]; lia).
    now rewrite positive_nat_Z. }
  assert (Pn : 0 < 2 ^ Zpos n) by (apply Z.pow_pos_nonneg; lia).
  assert (Hq : 2 ^ 52 <= shr_m mrs < 2 ^ 53).
  { rewrite Hm.
    assert (E1 : 2 ^ (D - 1) = 2 ^ 52 * 2 ^ Zpos n)
      by (rewrite <- Z.pow_add_r by lia; f_equal; lia).
    assert (E2 : 2 ^ D = 2 ^ 53 * 2 ^ Zpos n)
      by (rewrite <- Z.pow_add_r by lia; f_equal; lia).
    split; [apply Z.div_le_lower_bound | apply Z.div_lt_upper_bound]; lia. }
  pose proof (round_nearest_even_range (shr_m mrs) (loc_of_shr_record mrs))
    as Hrange.
  set (m0 := round_nearest_even (shr_m mrs) (loc_of_shr_record mrs)) in *.
  rewrite round_carry by lia.
  destruct (Z.eqb_spec m0 (2 ^ 53)) as [E|E].
  - exists 4503599627370496%positive, (Zpos n + 1).
    split; [f_equal; lia|]. split; [lia|]. split; [lia|].
    rewrite Z.pow_add_r, Z.pow_1_r by lia. rewrite E in Herr. lia.
  - exists (Z.to_pos m0), (Zpos n).
    split; [reflexivity|]. rewrite Z2Pos.id by lia.
    split; [lia|]. split; [lia|]. exact Herr.
Qed.

(** The product of two positive normal floats of moderate exponents: a
    normal float within half a unit of its last place of the exact
    product. *)
Lemma SFmul_nearest (m1 m2 : positive) (e1 e2 : Z) :
  2 ^ 52 <= Zpos m1 < 2 ^ 53 -> 2 ^ 52 <= Zpos m2 < 2 ^ 53 ->
  -1000 <= e1 + e2 <= 800 ->
  exists (m : positive) (k : Z),
    SFmul prec emax (S754_finite false m1 e1) (S754_finite false m2 e2)
    = S754_finite false m (e1 + e2 + k) /\
    2 ^ 52 <= Zpos m < 2 ^ 53 /\
    52 <= k <= 54 /\
    Z.abs (2 * (Zpos m1 * Zpos m2) - 2 * Zpos m * 2 ^ k) <= 2 ^ k.
Proof.
  intros H1 H2 He. unfold SFmul. cbn [xorb].
  destruct (digits_product m1 m2 H1 H2) as [HD|HD];
    destruct (binary_round_aux_exact (m1 * m2) (e1 + e2) _ HD)
      as (m & k & Hr & Hm & Hk & Herr); try lia;
    exists m, k; rewrite Pos2Z.inj_mul in Herr;
    (split; [exact Hr|]); (split; [exact Hm|]); (split; [lia | exact Herr]).
Qed.

Lemma SFmul_normal (m1 m2 : positive) (e1 e2 : Z) :
  2 ^ 52 <= Zpos m1 < 2 ^ 53 -> 2 ^ 52 <= Zpos m2 < 2 ^ 53 ->
  -1000 <= e1 + e2 <= 800 ->
  exists (m : positive) (e : Z),
    SFmul prec emax (S754_finite false m1 e1) (S754_finite false m2 e2)
    = S754_finite false m e /\
    2 ^ 52 <= Zpos m < 2 ^ 53.
Proof.
  intros H1 H2 He.
  destruct (SFmul_nearest m1 m2 e1 e2 H1 H2 He) as (m & k & Hr & Hm & _).
  eauto.
Qed.

(** Multiplying a normal float by [1.0] changes nothing. *)
Lemma SFmul_one (m : positive) (e : Z) :
  2 ^ 52 <= Zpos m < 2 ^ 53 -> -900 <= e <= 900 ->
  SFmul prec emax (S754_finite false m e) one = S754_finite false m e.
Proof.
  intros Hm He. unfold SFmul, one. cbn [xorb].
  unfold binary_round_aux.
  assert (HD : Zpos (digits2_pos (m * 4503599627370496)) = 105).
  { apply digits2_unique. rewrite Pos2Z.inj_mul.
    change (Zpos 4503599627370496) with (2 ^ 52).
    change (2 ^ (105 - 1)) with (2 ^ 52 * 2 ^ 52).
    change (2 ^ 105) with (2 ^ 53 * 2 ^ 52). lia. }
  rewrite (shr_fexp_digits _ _ 105) by (assumption || lia).
  change (105 - 53) with 52. cbn [shr]. rewrite iter_pos_nat.
  cbn [shr_record_of_loc]. rewrite Pos2Z.inj_mul.
  change (Zpos 4503599627370496) with (2 ^ Z.of_nat (Pos.to_nat 52)).
  rewrite shr_iter_exact. cbn [shr_m loc_of_shr_record round_nearest_even].
  rewrite round_carry by lia.
  destruct (Z.eqb_spec (Zpos m) (2 ^ 53)); [lia|].
  cbn [Z.to_pos]. f_equal. lia.
Qed.

(** Rounding the float of an integer gives the integer back. *)
Lemma py_round_exact (w : Z) (m : positive) (e : Z) :
  -52 <= e <= 0 -> Zpos m = w * 2 ^ (- e) ->
  py_round (S754_finite false m e) = OK w.
Proof.
  intros He Hm. unfold py_round. cbn [cond_neg].
  destruct (Z.leb_spec 0 e).
  - assert (e = 0) by lia. subst e. simpl in Hm. f_equal. simpl. lia.
  - f_equal. unfold div_half_even. rewrite Hm.
    assert (0 < 2 ^ (- e)) by (apply Z.pow_pos_nonneg; lia).
    rewrite Z.mod_mul, Z.div_mul by lia.
    destruct (Z.compare_spec (2 * 0) (2 ^ (- e))); try reflexivity; lia.
Qed.

(** [round] of a positive normal float is within one half of it. *)
Lemma py_round_nearest (m : positive) (e : Z) :
  exists r : Z,
    py_round (S754_finite false m e) = OK r /\
    (0 <= e -> r = Zpos m * 2 ^ e) /\
    (e < 0 -> Z.abs (2 * Zpos m - 2 * r * 2 ^ (- e)) <= 2 ^ (- e)).
Proof.
  unfold py_round. cbn [cond_neg].
  destruct (Z.leb_spec 0 e) as [He|He].
  - eexists. split; [reflexivity|]. split; [reflexivity | lia].
  - eexists. split; [reflexivity|]. split; [lia|]. intros _.
    assert (P : 0 < 2 ^ (- e)) by (apply Z.pow_pos_nonneg; lia).
    unfold div_half_even.
    pose proof (Z.div_mod (Zpos m) (2 ^ (- e)) ltac:(lia)) as Hdm.
    pose proof (Z.mod_pos_bound (Zpos m) (2 ^ (- e)) P) as Hmod.
    set (T := 2 ^ (- e)) in *.
    set (q := Zpos m / T) in *. set (r := Zpos m mod T) in *.
    destruct (Z.compare_spec (2 * r) T); [destruct (Z.even q)| |]; nia.
Qed.

End Products.
(* ===================================================================== *)
(** * Sizing: resize_by_long_or_short and resize_to_box                   *)
(* ===================================================================== *)

Section Sizing.

Lemma int_truediv_normal (a b : Z) :
  pixels a -> pixels b -> exists x, int_truediv a b = OK x /\ normal x.
Proof.
  intros Ha Hb.
  destruct (int_truediv_pos a b Ha Hb) as (m & e & Hdiv & Hm & He & _).
  exists (S754_finite false m e). split; [assumption|].
  exists m, e. auto.
Qed.

Lemma one_normal : normal one.
Proof.
  exists 4503599627370496%positive, (-52). repeat split; simpl; lia.
Qed.



Lemma py_round_finite (s : bool) (m : positive) (e : Z) :
  exists r, py_round (S754_finite s m e) = OK r.
Proof.
  unfold py_round. destruct (0 <=? e); eauto.
Qed.

(** [max(1, round(n * scale))] returns, and is at least 1. *)
Lemma scaled_dim_normal (n : Z) (scale : float) :
  pixels n -> normal scale ->
  exists r, scaled_dim n scale = OK r /\ 1 <= r.
Proof.
  intros Hn (m & e & -> & Hm & He).
  destruct (float_of_int_pos n Hn) as (mn & en & Hf & Hmn & Hen & _).
  destruct (SFmul_normal mn m en e Hmn Hm ltac:(lia)) as (mp & ep & Hp & _).
  destruct (py_round_finite false mp ep) as (r & Hr).
  exists (Z.max 1 r). unfold scaled_dim, int_mul_float.
  rewrite Hf. cbn [bind]. rewrite Hp, Hr. cbn [bind].
  split; [reflexivity | lia].
Qed.

Lemma scaled_dim_one (n : Z) : pixels n -> scaled_dim n one = OK n.
Proof.
  intros Hn.
  destruct (float_of_int_pos n Hn) as (mn & en & Hf & Hmn & Hen & Hval).
  unfold scaled_dim, int_mul_float. rewrite Hf. cbn [bind].
  rewrite SFmul_one by lia.
  rewrite (py_round_exact n mn en Hen Hval). cbn [bind].
  f_equal. unfold pixels in Hn. lia.
Qed.

Lemma Image_resize_size (rs : resampler) (img : Image) (nw nh : Z)
    (interp : resample_filter) :
  1 <= nw -> 1 <= nh ->
  exists out, Image_resize rs img nw nh interp = OK out /\ size out = (nw, nh).
Proof.
  intros Hw Hh. unfold Image_resize.
  destruct ((nw =? width img) && (nh =? height img)) eqn:E.
  - apply andb_true_iff in E. destruct E as [Ew Eh].
    apply Z.eqb_eq in Ew, Eh. exists img. unfold size. now subst.
  - destruct (Z.ltb_spec nw 1); [lia|]. destruct (Z.ltb_spec nh 1); [lia|].
    eexists. split; reflexivity.
Qed.

Lemma Image_resize_same (rs : resampler) (img : Image)
    (interp : resample_filter) :
  Image_resize rs img (width img) (height img) interp = OK img.
Proof.
  unfold Image_resize. now rewrite !Z.eqb_refl.
Qed.

Lemma float_lt_asym (x y : float) :
  normal x -> normal y -> float_lt x y = true -> float_lt y x = false.
Proof.
  intros (m1 & e1 & -> & _) (m2 & e2 & -> & _).
  unfold float_lt, SFltb. cbn [SFcompare].
  rewrite !Pos.compare_cont_spec. cbn [Pos.switch_Eq].
  rewrite (Z.compare_antisym e1 e2), (Pos.compare_antisym m1 m2).
  destruct (e1 ?= e2); cbn [CompOpp]; try discriminate; try reflexivity.
  destruct (m1 ?= m2)%positive; cbn [CompOpp]; try discriminate; reflexivity.
Qed.

Lemma float_lt_irrefl (x : float) : normal x -> float_lt x x = false.
Proof.
  intros (m & e & -> & _). unfold float_lt, SFltb. cbn [SFcompare].
  rewrite Z.compare_refl, Pos.compare_cont_spec, Pos.compare_refl.
  reflexivity.
Qed.


End Sizing.

Section Coverage.

Lemma abs_scale (x y c P : Z) :
  Z.abs (x - y) <= c -> 0 <= P -> Z.abs (x * P - y * P) <= c * P.
Proof.
  intros H HP. rewrite <- Z.mul_sub_distr_r, Z.abs_mul, (Z.abs_eq P) by lia.
  apply Z.mul_le_mono_nonneg_r; lia.
Qed.

Lemma pow2_mul (a b c : Z) :
  0 <= a -> 0 <= b -> c = a + b -> 2 ^ a * 2 ^ b = 2 ^ c.
Proof.
  intros Ha Hb ->. now rewrite Z.pow_add_r.
Qed.

(** A normal float not below another one, on mantissas and exponents. *)
Lemma float_ge_cases (m1 m2 : positive) (e1 e2 : Z) :
  float_lt (S754_finite false m1 e1) (S754_finite false m2 e2) = false ->
  e2 < e1 \/ (e1 = e2 /\ Zpos m2 <= Zpos m1).
Proof.
  unfold float_lt, SFltb. cbn [SFcompare].
  rewrite Pos.compare_cont_spec. cbn [Pos.switch_Eq].
  rewrite Pos2Z.inj_compare.
  destruct (Z.compare_spec e1 e2); try discriminate; try lia.
  destruct (Z.compare_spec (Zpos m1) (Zpos m2)); try discriminate; lia.
Qed.



(** The order of two normal floats on the scale [2^300]. *)
Lemma float_ge_scaled (m1 m2 : positive) (e1 e2 : Z) :
  2 ^ 52 <= Zpos m1 < 2 ^ 53 -> 2 ^ 52 <= Zpos m2 < 2 ^ 53 ->
  -299 <= e1 -> -299 <= e2 ->
  float_lt (S754_finite false m1 e1) (S754_finite false m2 e2) = false ->
  Zpos m2 * 2 ^ (e2 + 300) <= Zpos m1 * 2 ^ (e1 + 300).
Proof.
  intros H1 H2 L1 L2 Hge. apply float_ge_cases in Hge.
  destruct Hge as [L|[E L]].
  - assert (E2 : 2 ^ (e1 + 300) = 2 ^ (e1 - e2 - 1) * (2 * 2 ^ (e2 + 300))).
    { rewrite <- Z.pow_succ_r by lia.
      rewrite (pow2_mul (e1 - e2 - 1) (Z.succ (e2 + 300)) (e1 + 300)) by lia.
      reflexivity. }
    assert (0 < 2 ^ (e1 - e2 - 1)) by (apply Z.pow_pos_nonneg; lia).
    assert (0 < 2 ^ (e2 + 300)) by (apply Z.pow_pos_nonneg; lia).
    rewrite E2.
    apply Z.le_trans with (2 ^ 53 * 2 ^ (e2 + 300)).
    + apply Z.mul_le_mono_nonneg_r; lia.
    + replace (2 ^ 53 * 2 ^ (e2 + 300))
        with (2 ^ 52 * (1 * (2 * 2 ^ (e2 + 300))))
        by (change (2 ^ 53) with (2 * 2 ^ 52); ring).
      apply Z.mul_le_mono_nonneg; try lia.
      apply Z.mul_le_mono_nonneg_r; lia.
  - subst e2. apply Z.mul_le_mono_nonneg_r; [apply Z.pow_nonneg|]; lia.
Qed.

(** Scaling [w] pixels by a float around [t / w], for a target below
    [2^50]: at least [t] pixels when the scale is not below the quotient,
    at most [t] when it is not above. *)
Lemma scaled_dim_bounds (w t : Z) (sx s : float) (nw : Z) :
  pixels w -> 0 < t < 2 ^ 50 ->
  int_truediv t w = OK sx -> normal s ->
  scaled_dim w s = OK nw ->
  (float_lt s sx = false -> t <= nw) /\
  (float_lt sx s = false -> nw <= t).
Proof.
  intros Hw Ht Hsx (ms & es & -> & Hms & Hes) Hnw.
  destruct (int_truediv_pos t w) as (m0 & e0 & Hdiv & Hm0 & He0 & Herr0);
    [pixel_bounds | assumption |].
  rewrite Hdiv in Hsx. inversion Hsx; subst sx; clear Hsx.
  destruct (float_of_int_pos w Hw) as (mw & ew & Hf & Hmw & Hew & Hvalw).
  destruct (SFmul_nearest mw ms ew es Hmw Hms ltac:(lia))
    as (m & k & Hmul & Hm & Hk & Herr).
  destruct (py_round_nearest m (ew + es + k)) as (r & Hr & Hpos & Hneg).
  unfold scaled_dim, int_mul_float in Hnw.
  rewrite Hf in Hnw. cbn [bind] in Hnw. rewrite Hmul, Hr in Hnw.
  cbn [bind] in Hnw. inversion Hnw; subst nw; clear Hnw.
  set (e := ew + es + k) in *.
  (* everything on the scale 2^300 *)
  set (G := 2 ^ 300).
  set (U0 := 2 ^ (e0 + 299)).
  set (Uh := 2 ^ (e + 299)).
  assert (PG : 0 < G) by (apply Z.pow_pos_nonneg; lia).
  assert (PU0 : 0 < U0) by (apply Z.pow_pos_nonneg; lia).
  assert (PUh : 0 < Uh) by (apply Z.pow_pos_nonneg; unfold e; lia).
  assert (EU0 : 2 ^ (e0 + 300) = 2 * U0).
  { unfold U0. rewrite <- Z.pow_succ_r by lia. f_equal. lia. }
  assert (EUh : 2 ^ (e + 300) = 2 * Uh).
  { unfold Uh. rewrite <- Z.pow_succ_r by (unfold e; lia). f_equal. lia. }
  (* the quotient *)
  assert (D1 : Z.abs (t * G - Zpos m0 * (2 * U0) * w) <= w * U0).
  { pose proof (abs_scale _ _ _ U0 Herr0 ltac:(lia)) as H.
    replace (t * 2 ^ (1 - e0) * U0) with (t * G) in H
      by (unfold G, U0;
          rewrite <- Z.mul_assoc, (pow2_mul (1 - e0) (e0 + 299) 300) by lia;
          reflexivity).
    replace (2 * Zpos m0 * w * U0) with (Zpos m0 * (2 * U0) * w) in H by ring.
    exact H. }
  (* the product *)
  assert (D3 : Z.abs (w * (Zpos ms * 2 ^ (es + 300)) - Zpos m * (2 * Uh))
               <= Uh).
  { pose proof (abs_scale _ _ _ (2 ^ (ew + es + 299)) Herr
                  ltac:(apply Z.pow_nonneg; lia)) as H.
    rewrite Hvalw in H.
    replace (2 * (w * 2 ^ (- ew) * Zpos ms) * 2 ^ (ew + es + 299))
      with (w * (Zpos ms * (2 * (2 ^ (- ew) * 2 ^ (ew + es + 299))))) in H
      by ring.
    rewrite (pow2_mul (- ew) (ew + es + 299) (es + 299)) in H by lia.
    rewrite <- Z.pow_succ_r in H by lia.
    replace (Z.succ (es + 299)) with (es + 300) in H by lia.
    replace (2 * Zpos m * 2 ^ k * 2 ^ (ew + es + 299))
      with (Zpos m * (2 * (2 ^ k * 2 ^ (ew + es + 299)))) in H by ring.
    rewrite (pow2_mul k (ew + es + 299) (e + 299)) in H by (unfold e; lia).
    exact H. }
  (* the rounding to an integer *)
  assert (EG : G = 2 * 2 ^ 299)
    by (unfold G; rewrite <- Z.pow_succ_r by lia; reflexivity).
  assert (D4 : Z.abs (Zpos m * (2 * Uh) - r * G) * 2 <= G).
  { destruct (Z.le_gt_cases 0 e) as [Ee|Ee].
    - rewrite (Hpos Ee), <- EUh.
      replace (Zpos m * 2 ^ (e + 300)) with (Zpos m * 2 ^ e * G)
        by (unfold G; rewrite <- Z.mul_assoc, (pow2_mul e 300 (e + 300)) by lia;
            reflexivity).
      rewrite Z.sub_diag. simpl. lia.
    - pose proof (abs_scale _ _ _ Uh (Hneg Ee) ltac:(lia)) as H.
      replace (2 * Zpos m * Uh) with (Zpos m * (2 * Uh)) in H by ring.
      replace (2 * r * 2 ^ (- e) * Uh) with (r * (2 * (2 ^ (- e) * Uh))) in H
        by ring.
      unfold Uh in H at 2 3.
      rewrite (pow2_mul (- e) (e + 299) 299) in H by (unfold e in *; lia).
      rewrite <- EG in H. rewrite EG at 2. lia. }
  (* the sizes of the atoms *)
  assert (D5 : 2 ^ 53 * (w * U0) <= Zpos m0 * (2 * U0) * w).
  { replace (2 ^ 53 * (w * U0)) with (2 ^ 52 * (2 * U0) * w)
      by (change (2 ^ 53) with (2 * 2 ^ 52); ring).
    apply Z.mul_le_mono_nonneg_r; [pixel_bounds|].
    apply Z.mul_le_mono_nonneg_r; lia. }
  assert (D6 : 2 ^ 53 * Uh <= Zpos m * (2 * Uh)).
  { replace (2 ^ 53 * Uh) with (2 ^ 52 * (2 * Uh))
      by (change (2 ^ 53) with (2 * 2 ^ 52); ring).
    apply Z.mul_le_mono_nonneg_r; lia. }
  assert (D8 : t * G <= (2 ^ 50 - 1) * G)
    by (apply Z.mul_le_mono_nonneg_r; lia).
  replace ((2 ^ 50 - 1) * G) with (2 ^ 50 * G - G) in D8 by ring.
  set (A0 := Zpos m0 * (2 * U0) * w) in *.
  set (A := w * (Zpos ms * 2 ^ (es + 300))) in *.
  set (V := Zpos m * (2 * Uh)) in *.
  set (B0 := w * U0) in *.
  split; intros Hord.
  - apply (float_ge_scaled ms m0 es e0 Hms Hm0 ltac:(lia) ltac:(lia)) in Hord.
    rewrite EU0 in Hord.
    assert (D7 : A0 <= A).
    { unfold A0, A. rewrite (Z.mul_comm _ w).
      apply Z.mul_le_mono_nonneg_l; [pixel_bounds | exact Hord]. }
    apply Z.le_trans with r; [|lia].
    destruct (Z.le_gt_cases t r) as [|Hlt]; [assumption|exfalso].
    assert (D9 : r * G <= (t - 1) * G)
      by (apply Z.mul_le_mono_nonneg_r; lia).
    replace ((t - 1) * G) with (t * G - G) in D9 by ring.
    set (tG := t * G) in *. set (rG := r * G) in *.
    clearbody A0 A V B0 tG rG G U0 Uh.
    lia.
  - apply (float_ge_scaled m0 ms e0 es Hm0 Hms ltac:(lia) ltac:(lia)) in Hord.
    rewrite EU0 in Hord.
    assert (D7 : A <= A0).
    { unfold A0, A. rewrite (Z.mul_comm _ w).
      apply Z.mul_le_mono_nonneg_l; [pixel_bounds | exact Hord]. }
    apply Z.max_lub; [lia|].
    destruct (Z.le_gt_cases r t) as [|Hlt]; [assumption|exfalso].
    assert (D9 : (t + 1) * G <= r * G)
      by (apply Z.mul_le_mono_nonneg_r; lia).
    replace ((t + 1) * G) with (t * G + G) in D9 by ring.
    set (tG := t * G) in *. set (rG := r * G) in *.
    clearbody A0 A V B0 tG rG G U0 Uh.
    lia.
Qed.

Lemma scaled_dim_covers (w t : Z) (sx s : float) (nw : Z) :
  pixels w -> 0 < t < 2 ^ 50 ->
  int_truediv t w = OK sx -> normal s -> float_lt s sx = false ->
  scaled_dim w s = OK nw ->
  t <= nw.
Proof.
  intros Hw Ht Hsx Hs Hge Hnw.
  now apply (proj1 (scaled_dim_bounds w t sx s nw Hw Ht Hsx Hs Hnw)).
Qed.

Lemma scaled_dim_fits (w t : Z) (sx s : float) (nw : Z) :
  pixels w -> 0 < t < 2 ^ 50 ->
  int_truediv t w = OK sx -> normal s -> float_lt sx s = false ->
  scaled_dim w s = OK nw ->
  nw <= t.
Proof.
  intros Hw Ht Hsx Hs Hle Hnw.
  now apply (proj2 (scaled_dim_bounds w t sx s nw Hw Ht Hsx Hs Hnw)).
Qed.

(** Scaling [w] pixels by [t / w] gives [t] pixels. *)
Lemma scaled_dim_exact (w t : Z) (s : float) :
  pixels w -> 0 < t < 2 ^ 50 ->
  int_truediv t w = OK s -> scaled_dim w s = OK t.
Proof.
  intros Hw Ht Hs.
  destruct (int_truediv_normal t w ltac:(unfold pixels; lia) Hw)
    as (s' & Hs' & Ns).
  rewrite Hs in Hs'. inversion Hs'; subst s'; clear Hs'.
  destruct (scaled_dim_normal w s Hw Ns) as (nw & Hnw & _).
  destruct (scaled_dim_bounds w t s s nw Hw Ht Hs Ns Hnw) as [Lo Hi].
  pose proof (float_lt_irrefl s Ns) as Hirr.
  rewrite Hnw. f_equal. specialize (Lo Hirr). specialize (Hi Hirr). lia.
Qed.



End Coverage.





Section CropToFill.

Variable rs : resampler.


Lemma Image_crop_run (img : Image) (left top w h : Z) :
  0 <= w -> 0 <= h ->
  exists out,
    Image_crop img left top (left + w) (top + h) = OK out /\
    size out = (w, h) /\
    forall x y,
      getpixel out x y
      = if in_image img (x + left) (y + top)
        then getpixel img (x + left) (y + top)
        else black.
Proof.
  intros Hw Hh. unfold Image_crop.
  destruct (Z.ltb_spec (left + w) left); [lia|].
  destruct (Z.ltb_spec (top + h) top); [lia|].
  eexists. split; [reflexivity|]. split; [|reflexivity].
  unfold size. simpl. f_equal; lia.
Qed.




End CropToFill.




Lemma crop_to_fill_black_pixel :
  exists out : Image,
    resize_to_box nearest (plain 100 100 white) 200 200 fit_crop white
      LANCZOS true = OK out /\
    size out = (200, 200) /\
    getpixel out 50 50 = white /\
    getpixel out 150 150 = black.
Proof.
  eexists. split; [vm_compute; reflexivity|]. repeat split.
Qed.





Lemma placements_do_not_overlap_witness :
  ~ boxes_intersect (20, 20) (300, 200) (430, 70) (100, 100).
Proof.
  assert (Hrun : exists L, contact_sheet img3 2 10 20 None None white = OK L /\
                           offsets L = [(20, 20); (430, 70); (20, 280)]).
  { eexists. split; [vm_compute; reflexivity | reflexivity]. }
  destruct Hrun as (L & HL & Hoffs).
  apply (placements_do_not_overlap img3 2 10 20 None None white L 0 1
           (plain 300 200 white) (plain 100 100 white) (20, 20) (430, 70));
    try lia; try reflexivity; try assumption.
  - repeat constructor; simpl; lia.
  - rewrite Hoffs. reflexivity.
  - rewrite Hoffs. reflexivity.
Defined.

(* ===================================================================== *)
(** * Further runs of the model                                          *)
(* ===================================================================== *)

Example bg_rgb_of_white : bg_rgb_of "#FFFFFF" = OK (255, 255, 255).
Proof. reflexivity. Qed.

Example bg_rgb_of_short :
  bg_rgb_of "#FFF" = Raise (invalid_literal_16 "").
Proof. reflexivity. Qed.

Example format_03d_runs :
  format_03d 7 = "007" /\ format_03d 1234 = "1234" /\ format_03d 0 = "000".
Proof. repeat split; reflexivity. Qed.

Example rsplit1_runs :
  rsplit1 "." "a.b.c" = ["a.b"; "c"] /\ rsplit1 "." "abc" = ["abc"] /\
  rsplit1 "." ".x" = [""; "x"].
Proof. repeat split; reflexivity. Qed.

(** The three literals are the floats nearest to their decimals. *)
Example paper_literals :
  int_truediv 827 100 = OK f8_27 /\ int_truediv 1169 100 = OK f11_69 /\
  int_truediv 17 2 = OK f8_5.
Proof. repeat split; reflexivity. Qed.

(* ===================================================================== *)
(** * Further properties: the two resize functions                       *)
(* ===================================================================== *)

(** Two normal floats that neither is below the other are equal. *)
Lemma float_eq_of_order (x y : float) :
  normal x -> normal y ->
  float_lt x y = false -> float_lt y x = false -> x = y.
Proof.
  intros (m1 & e1 & -> & _ & _) (m2 & e2 & -> & _ & _) H1 H2.
  apply float_ge_cases in H1. apply float_ge_cases in H2.
  assert (e1 = e2) by lia. subst e2.
  assert (Zpos m1 = Zpos m2) as E by lia.
  injection E as ->. reflexivity.
Qed.

(** A pixel count divided by itself is [1.0]. *)
Lemma int_truediv_self (w : Z) : pixels w -> int_truediv w w = OK one.
Proof.
  intros Hw.
  destruct (int_truediv_pos w w) as (m & e & Hq & Hm & He & Herr);
    try (unfold pixels in Hw; lia).
  rewrite Hq. f_equal.
  assert (0 < w) as Hpos by (unfold pixels in Hw; lia).
  assert (Z.abs (2 ^ (1 - e) - 2 * Zpos m) <= 1) as Habs.
  { replace (w * 2 ^ (1 - e) - 2 * Z.pos m * w)
      with ((2 ^ (1 - e) - 2 * Zpos m) * w) in Herr by ring.
    rewrite Z.abs_mul, (Z.abs_eq w) in Herr by lia.
    assert (0 <= Z.abs (2 ^ (1 - e) - 2 * Z.pos m)) by apply Z.abs_nonneg.
    nia. }
  assert (e <> 1) as Hne.
  { intros ->. change (2 ^ (1 - 1)) with 1 in Habs. lia. }
  assert (2 ^ (1 - e) = 2 * 2 ^ (- e)) as Hpow.
  { replace (1 - e) with (Z.succ (- e)) by lia.
    rewrite Z.pow_succ_r by lia. reflexivity. }
  rewrite Hpow in Habs.
  assert (Zpos m = 2 ^ (- e)) as Hmv by lia.
  assert (- e = 52) as He52.
  { rewrite Hmv in Hm. destruct Hm as [Hlo Hhi].
    apply Z.pow_le_mono_r_iff in Hlo; try lia.
    apply Z.pow_lt_mono_r_iff in Hhi; lia. }
  assert (e = -52) by lia. subst e.
  change (2 ^ (- -52)) with 4503599627370496 in Hmv.
  injection Hmv as ->. reflexivity.
Qed.

Section MoreSizing.

Variable rs : resampler.

(** The keep-ratio branch of [resize_by_long_or_short] on its scale. *)
Lemma keep_ratio_run (img : Image) (target : Z) (mode : string)
    (no_upscale : bool) (interp : resample_filter) :
  pixels target -> pixels (width img) -> pixels (height img) ->
  let edge := if String.eqb mode mode_long
              then Z.max (width img) (height img)
              else Z.min (width img) (height img) in
  exists s,
    int_truediv target edge = OK s /\ normal s /\
    resize_by_long_or_short rs img target mode true no_upscale interp
    = if no_upscale && float_lt one s then OK img
      else nw <- scaled_dim (width img) s ;;
           nh <- scaled_dim (height img) s ;;
           Image_resize rs img nw nh interp.
Proof.
  intros Ht Hw Hh edge.
  assert (pixels edge) as Hr.
  { unfold edge. destruct (String.eqb mode mode_long);
      unfold pixels in *; lia. }
  destruct (int_truediv_normal target edge Ht Hr) as (s & Hs & Hn).
  exists s. split; [exact Hs|]. split; [exact Hn|].
  unfold resize_by_long_or_short, size.
  unfold edge in Hs.
  destruct (String.eqb mode mode_long); rewrite Hs; reflexivity.
Qed.

(** A scale of at most one gives at most the source length. *)
Lemma scaled_dim_shrinks (n : Z) (s : float) (r : Z) :
  0 < n < 2 ^ 50 -> normal s -> float_lt one s = false ->
  scaled_dim n s = OK r -> 1 <= r <= n.
Proof.
  intros Hn Ns Hle Hr.
  assert (pixels n) as Pn by (unfold pixels; lia).
  destruct (scaled_dim_normal n s Pn Ns) as (r' & Hr' & Hge).
  assert (r' = r) by congruence. subst r'.
  split; [exact Hge|].
  exact (scaled_dim_fits n n one s r Pn Hn (int_truediv_self n Pn) Ns Hle Hr).
Qed.

(** With the flag set, the keep-ratio branch gives an image no larger
    than its source. *)
Lemma keep_ratio_no_upscale_run (img : Image) (target : Z) (mode : string)
    (interp : resample_filter) :
  0 < width img < 2 ^ 50 -> 0 < height img < 2 ^ 50 -> pixels target ->
  exists out,
    resize_by_long_or_short rs img target mode true true interp = OK out /\
    1 <= width out <= width img /\
    1 <= height out <= height img.
Proof.
  intros Hw Hh Ht.
  assert (pixels (width img)) as Pw by (unfold pixels; lia).
  assert (pixels (height img)) as Ph by (unfold pixels; lia).
  destruct (keep_ratio_run img target mode true interp Ht Pw Ph)
    as (s & _ & Ns & ->).
  cbn [andb]. destruct (float_lt one s) eqn:Hlt.
  - exists img. split; [reflexivity|]. lia.
  - destruct (scaled_dim_normal _ s Pw Ns) as (nw & Hnw & _).
    destruct (scaled_dim_normal _ s Ph Ns) as (nh & Hnh & _).
    pose proof (scaled_dim_shrinks _ s nw Hw Ns Hlt Hnw) as Bw.
    pose proof (scaled_dim_shrinks _ s nh Hh Ns Hlt Hnh) as Bh.
    destruct (Image_resize_size rs img nw nh interp (proj1 Bw) (proj1 Bh))
      as (out & Ho & So).
    exists out. rewrite Hnw, Hnh. cbn [bind]. split; [exact Ho|].
    unfold size in So. injection So as -> ->. lia.
Qed.

End MoreSizing.

(** X1. With [keep_ratio] and [no_upscale] set, [resize_by_long_or_short]
    returns, for every mode and target, an image of at least one pixel a
    side that is no wider and no higher than its source. *)
Theorem no_upscale_never_enlarges :
  forall (rs : resampler) (img : Image) (target : Z) (mode : string)
         (interp : resample_filter),
    0 < width img < 2 ^ 50 -> 0 < height img < 2 ^ 50 -> pixels target ->
    exists out,
      resize_by_long_or_short rs img target mode true true interp = OK out /\
      1 <= width out <= width img /\
      1 <= height out <= height img.
Proof.
  intros rs img target mode interp. apply keep_ratio_no_upscale_run.
Qed.

Lemma no_upscale_never_enlarges_witness :
  exists out,
    resize_by_long_or_short nearest (plain 800 600 white) 400 mode_long true
      true LANCZOS = OK out /\
    1 <= width out <= 800 /\ 1 <= height out <= 600.
Proof.
  assert (P : pixels 400) by (unfold pixels; lia).
  apply (no_upscale_never_enlarges nearest (plain 800 600 white) 400 mode_long
           LANCZOS); [simpl; lia | simpl; lia | exact P].
Defined.

(** X2. With [keep_ratio] and [no_upscale] set, a target that is not
    below the reference edge (the longest edge in mode [mode_long], the
    shortest one in every other mode) leaves the image as it is: the
    result is the source itself. *)
Theorem no_upscale_keeps_small_image :
  forall (rs : resampler) (img : Image) (target : Z) (mode : string)
         (interp : resample_filter),
    pixels (width img) -> pixels (height img) -> pixels target ->
    (if String.eqb mode mode_long
     then Z.max (width img) (height img)
     else Z.min (width img) (height img)) <= target ->
    resize_by_long_or_short rs img target mode true true interp = OK img.
Proof.
  intros rs img target mode interp Pw Ph Ht Hle.
  destruct (keep_ratio_run rs img target mode true interp Ht Pw Ph)
    as (s & Hs & Ns & ->).
  cbn [andb]. destruct (float_lt one s) eqn:Hlt; [reflexivity|].
  assert (float_lt s one = false) as Hge.
  { eapply int_truediv_ge_one; [| | exact Hs]; [|unfold pixels in Ht; lia].
    split; [|exact Hle].
    destruct (String.eqb mode mode_long); unfold pixels in *; lia. }
  assert (s = one) as -> by
      (apply float_eq_of_order;
       [exact Ns | apply one_normal | exact Hge | exact Hlt]).
  rewrite !scaled_dim_one by assumption. cbn [bind].
  apply Image_resize_same.
Qed.

Lemma no_upscale_keeps_small_image_witness :
  resize_by_long_or_short nearest (plain 300 200 white) 1024 mode_long true
    true LANCZOS = OK (plain 300 200 white).
Proof.
  assert (P1 : pixels 300) by (unfold pixels; lia).
  assert (P2 : pixels 200) by (unfold pixels; lia).
  assert (P3 : pixels 1024) by (unfold pixels; lia).
  apply (no_upscale_keeps_small_image nearest (plain 300 200 white) 1024
           mode_long LANCZOS P1 P2 P3).
  simpl. lia.
Defined.

(** X3. With [keep_ratio] set, a target that is not above the reference
    edge gives the same image whether [no_upscale] is set or not; it is
    no larger than the source, and its reference edge is the target. *)
Theorem keep_ratio_shrinks_to_target :
  forall (rs : resampler) (img : Image) (target : Z) (mode : string)
         (interp : resample_filter),
    0 < width img < 2 ^ 50 -> 0 < height img < 2 ^ 50 -> 0 < target ->
    let edge := if String.eqb mode mode_long
                then Z.max (width img) (height img)
                else Z.min (width img) (height img) in
    target <= edge ->
    exists out,
      (forall no_upscale,
          resize_by_long_or_short rs img target mode true no_upscale interp
          = OK out) /\
      width out <= width img /\ height out <= height img /\
      (edge = width img -> width out = target) /\
      (edge = height img -> height out = target).
Proof.
  intros rs img target mode interp Hw Hh Ht edge Hle.
  assert (pixels (width img)) as Pw by (unfold pixels; lia).
  assert (pixels (height img)) as Ph by (unfold pixels; lia).
  assert (0 < edge < 2 ^ 50) as He
      by (unfold edge; destruct (String.eqb mode mode_long); lia).
  assert (pixels edge) as Pe by (unfold pixels; lia).
  assert (pixels target) as Pt by (unfold pixels; lia).
  destruct (keep_ratio_run rs img target mode false interp Pt Pw Ph)
    as (s & Hs & Ns & Hrun). fold edge in Hs.
  assert (float_lt one s = false) as Hlt.
  { destruct (float_lt one s) eqn:E; [|reflexivity].
    pose proof (int_truediv_self edge Pe) as Hone.
    destruct (scaled_dim_normal edge s Pe Ns) as (r & Hr & _).
    pose proof (scaled_dim_exact edge target s Pe ltac:(lia) Hs) as Hex.
    assert (r = target) by congruence. subst r.
    assert (float_lt s one = false) as Hge
        by (apply float_lt_asym; [apply one_normal | exact Ns | exact E]).
    pose proof (scaled_dim_covers edge edge one s target Pe He Hone Ns Hge Hr).
    assert (target = edge) by lia. subst target.
    rewrite Hone in Hs. injection Hs as <-.
    rewrite float_lt_irrefl in E by apply one_normal. discriminate. }
  destruct (scaled_dim_normal _ s Pw Ns) as (nw & Hnw & _).
  destruct (scaled_dim_normal _ s Ph Ns) as (nh & Hnh & _).
  pose proof (scaled_dim_shrinks _ s nw Hw Ns Hlt Hnw) as Bw.
  pose proof (scaled_dim_shrinks _ s nh Hh Ns Hlt Hnh) as Bh.
  destruct (Image_resize_size rs img nw nh interp (proj1 Bw) (proj1 Bh))
    as (out & Ho & So).
  exists out. split.
  { intros no_upscale.
    destruct (keep_ratio_run rs img target mode no_upscale interp Pt Pw Ph)
      as (s' & Hs' & _ & ->). fold edge in Hs'.
    assert (s' = s) by congruence. subst s'.
    rewrite Hlt, andb_false_r, Hnw, Hnh. exact Ho. }
  unfold size in So. injection So as -> ->.
  split; [lia|]. split; [lia|].
  pose proof (scaled_dim_exact edge target s Pe ltac:(lia) Hs) as Hex.
  split; intros E; rewrite E in Hex; congruence.
Qed.

Lemma keep_ratio_shrinks_to_target_witness :
  exists out,
    (forall no_upscale,
        resize_by_long_or_short nearest (plain 800 600 white) 400 mode_short
          true no_upscale LANCZOS = OK out) /\
    height out = 400.
Proof.
  destruct (keep_ratio_shrinks_to_target nearest (plain 800 600 white) 400
              mode_short LANCZOS)
    as (out & Ho & _ & _ & _ & Hh).
  - simpl. lia.
  - simpl. lia.
  - lia.
  - simpl. lia.
  - exists out. split; [exact Ho|]. apply Hh. reflexivity.
Defined.






(** X6. An image that already has the requested size passes through
    [resize_to_box] unchanged in every fit mode, with or without
    [no_upscale]: the result has its size and its pixels. *)
Theorem sized_image_passes_unchanged :
  forall (rs : resampler) (img : Image) (fit_mode : string) (c : color)
         (interp : resample_filter) (no_upscale : bool),
    pixels (width img) -> pixels (height img) ->
    exists out,
      resize_to_box rs img (width img) (height img) fit_mode c interp
        no_upscale = OK out /\
      size out = size img /\
      forall x y,
        0 <= x < width img -> 0 <= y < height img ->
        getpixel out x y = getpixel img x y.
Proof.
  intros rs img fit_mode c interp no_upscale Pw Ph.
  assert (float_min one one = one) as Hmin by reflexivity.
  assert (float_max one one = one) as Hmax by reflexivity.
  unfold resize_to_box, size.
  rewrite !int_truediv_self by assumption. cbn [bind].
  rewrite Hmax, !Hmin.
  replace (if no_upscale then one else one) with one by now destruct no_upscale.
  rewrite !scaled_dim_one by assumption. cbn [bind].
  rewrite Image_resize_same. cbn [bind].
  rewrite Image_new_run by pixel_bounds. cbn [bind].
  rewrite !Z.sub_diag. change (0 / 2) with 0. change (Z.max 0 0) with 0.
  destruct (String.eqb fit_mode fit_pad);
    [|destruct (String.eqb fit_mode fit_crop)].
  - eexists. split; [reflexivity|]. split; [reflexivity|].
    intros x y Hx Hy. cbn [Image_paste getpixel]. rewrite !Z.sub_0_r.
    unfold in_image.
    replace (0 <=? x) with true by (symmetry; apply Z.leb_le; lia).
    replace (x <? width img) with true by (symmetry; apply Z.ltb_lt; lia).
    replace (0 <=? y) with true by (symmetry; apply Z.leb_le; lia).
    replace (y <? height img) with true by (symmetry; apply Z.ltb_lt; lia).
    reflexivity.
  - destruct (Image_crop_run img 0 0 (width img) (height img)
                ltac:(pixel_bounds) ltac:(pixel_bounds))
      as (out & Ho & So & Hpx).
    exists out. split; [exact Ho|]. split; [exact So|].
    intros x y Hx Hy. rewrite Hpx, !Z.add_0_r. unfold in_image.
    replace (0 <=? x) with true by (symmetry; apply Z.leb_le; lia).
    replace (x <? width img) with true by (symmetry; apply Z.ltb_lt; lia).
    replace (0 <=? y) with true by (symmetry; apply Z.leb_le; lia).
    replace (y <? height img) with true by (symmetry; apply Z.ltb_lt; lia).
    reflexivity.
  - replace (if no_upscale
             then (Z.min (width img) (width img),
                   Z.min (height img) (height img))
             else (width img, height img)) with (width img, height img)
      by (destruct no_upscale; [now rewrite !Z.min_id | reflexivity]).
    rewrite Image_resize_same. exists img. repeat split.
Qed.

Lemma sized_image_passes_unchanged_witness :
  exists out,
    resize_to_box nearest (plain 640 480 white) 640 480 fit_crop black
      LANCZOS true = OK out /\
    size out = (640, 480) /\
    getpixel out 10 20 = white.
Proof.
  assert (P1 : pixels 640) by (unfold pixels; lia).
  assert (P2 : pixels 480) by (unfold pixels; lia).
  destruct (sized_image_passes_unchanged nearest (plain 640 480 white)
              fit_crop black LANCZOS true P1 P2)
    as (out & Ho & So & Hpx).
  exists out. split; [exact Ho|]. split; [exact So|].
  apply (Hpx 10 20); simpl; lia.
Defined.

(* ===================================================================== *)
(** * Further properties: pad_to_size                                    *)
(* ===================================================================== *)



(* ===================================================================== *)
(** * Further properties: the values of the sidebar                      *)
(* ===================================================================== *)

(** A hexadecimal digit is no white space, sign, prefix letter or [#]. *)
Lemma hex_val_char (c : ascii) (d : Z) :
  hex_val c = Some d ->
  0 <= d <= 15 /\ is_space c = false /\
  (code c =? 45) = false /\ (code c =? 43) = false /\
  (code c =? 120) = false /\ (code c =? 88) = false /\
  Ascii.eqb c "#" = false.
Proof.
  unfold hex_val, is_digit, is_space.
  pose proof (code_range c) as Hc.
  assert (Ascii.eqb c "#" = false <-> code c <> 35) as Hhash.
  { rewrite Ascii.eqb_neq. split; intros H E; apply H.
    - unfold code in E. apply (f_equal Z.to_N) in E.
      rewrite N2Z.id in E. apply (f_equal ascii_of_N) in E.
      now rewrite ascii_N_embedding in E.
    - now subst c. }
  rewrite Hhash. clear Hhash.
  destruct (Z.leb_spec 48 (code c)), (Z.leb_spec (code c) 57),
    (Z.leb_spec 97 (code c)), (Z.leb_spec (code c) 102),
    (Z.leb_spec 65 (code c)), (Z.leb_spec (code c) 70);
    cbn [andb]; intros E; try discriminate; injection E as <-;
    repeat match goal with
           | |- _ /\ _ => split
           | |- (_ =? _) = false => apply Z.eqb_neq
           | |- (_ || _) = false => apply orb_false_iff
           | |- (_ && _) = false => apply andb_false_iff
           end; try lia.
Qed.

(** Two hexadecimal digits read as a number. *)
Lemma int_of_hex_pair (a b : ascii) (da db : Z) :
  hex_val a = Some da -> hex_val b = Some db ->
  int_of_str_16 (String a (String b EmptyString)) = OK (16 * da + db).
Proof.
  intros Ha Hb.
  destruct (hex_val_char a da Ha) as (_ & Sa & Ma & Pa & _).
  destruct (hex_val_char b db Hb) as (_ & Sb & _ & _ & Xl & Xu & _).
  unfold int_of_str_16, strip. cbn [rstrip]. rewrite Sb. cbn [lstrip].
  rewrite Sa, Ma, Pa. unfold hex_literal.
  rewrite Xl, Xu, andb_false_r. cbn [hex_digits]. rewrite Ha, Hb.
  f_equal; lia.
Qed.

(** X8. On the text of a colour picker, [#] and six hexadecimal digits of
    either case, line 177 gives the three bytes that the pairs of digits
    write, each between 0 and 255. *)
Theorem bg_rgb_of_picker_text :
  forall (r1 r2 g1 g2 b1 b2 : ascii) (dr1 dr2 dg1 dg2 db1 db2 : Z),
    hex_val r1 = Some dr1 -> hex_val r2 = Some dr2 ->
    hex_val g1 = Some dg1 -> hex_val g2 = Some dg2 ->
    hex_val b1 = Some db1 -> hex_val b2 = Some db2 ->
    let text :=
      String "#" (String r1 (String r2 (String g1 (String g2
        (String b1 (String b2 EmptyString)))))) in
    bg_rgb_of text
    = OK (16 * dr1 + dr2, 16 * dg1 + dg2, 16 * db1 + db2) /\
    0 <= 16 * dr1 + dr2 <= 255 /\
    0 <= 16 * dg1 + dg2 <= 255 /\
    0 <= 16 * db1 + db2 <= 255.
Proof.
  intros r1 r2 g1 g2 b1 b2 dr1 dr2 dg1 dg2 db1 db2 R1 R2 G1 G2 B1 B2 text.
  pose proof (hex_val_char _ _ R1) as (Vr1 & _ & _ & _ & _ & _ & Hr1).
  pose proof (hex_val_char _ _ R2) as (Vr2 & _).
  pose proof (hex_val_char _ _ G1) as (Vg1 & _).
  pose proof (hex_val_char _ _ G2) as (Vg2 & _).
  pose proof (hex_val_char _ _ B1) as (Vb1 & _).
  pose proof (hex_val_char _ _ B2) as (Vb2 & _).
  split; [|lia].
  unfold bg_rgb_of, text. cbn [lstrip_char Ascii.eqb Bool.eqb].
  rewrite Hr1. unfold slice. cbn [substring Nat.sub].
  rewrite (int_of_hex_pair _ _ _ _ R1 R2), (int_of_hex_pair _ _ _ _ G1 G2),
    (int_of_hex_pair _ _ _ _ B1 B2).
  reflexivity.
Qed.

Lemma bg_rgb_of_picker_text_witness :
  bg_rgb_of "#fFa012" = OK (255, 160, 18).
Proof.
  exact (proj1 (bg_rgb_of_picker_text "f" "F" "a" "0" "1" "2" 15 15 10 0 1 2
                  eq_refl eq_refl eq_refl eq_refl eq_refl eq_refl)).
Defined.


Section PaperSizes.

(** The product of a constant [mc * 2^-49], at most the fraction [N / D]
    and close to it, with a pixel density, truncated: the float product
    loses nothing against [N * dpi / D]. *)
Lemma trunc_product (mc : positive) (N D dpi : Z) :
  2 ^ 52 <= Zpos mc < 2 ^ 53 -> 0 < D < 2 ^ 16 ->
  0 <= N * 2 ^ 49 - D * Zpos mc ->
  (N * 2 ^ 49 - D * Zpos mc) * 2 ^ 32 < 2 ^ 49 ->
  (N * 2 ^ 49 - D * Zpos mc) * (2 ^ 54 + 1) < D * Zpos mc ->
  1 <= dpi < 2 ^ 32 ->
  (x <- float_mul_int (S754_finite false mc (-49)) dpi ;; int_of_float x)
  = OK (N * dpi / D).
Proof.
  intros Hmc HD Hd0 Hd1 Hd2 Hdpi.
  set (d := N * 2 ^ 49 - D * Zpos mc) in *.
  destruct (float_of_int_pos dpi ltac:(lia))
    as (m2 & e2 & Hf & Hm2 & He2 & Em2).
  unfold float_mul_int. rewrite Hf. cbn [bind].
  destruct (SFmul_nearest mc m2 (-49) e2 Hmc Hm2 ltac:(lia))
    as (m & k & Hmul & Hm & Hk & Herr).
  rewrite Hmul. clear Hmul Hf.
  set (u := 2 ^ (- e2)) in *.
  assert (0 < u) as Hu by (apply Z.pow_pos_nonneg; lia).
  assert (0 < 2 ^ k) as Hpk by (apply Z.pow_pos_nonneg; lia).
  assert (2 ^ k = 2 * 2 ^ (k - 1)) as Ek.
  { replace k with (Z.succ (k - 1)) at 1 by lia.
    rewrite Z.pow_succ_r by lia. reflexivity. }
  set (h := 2 ^ (k - 1)) in *.
  assert (0 < h) as Hh by (apply Z.pow_pos_nonneg; lia).
  (* the product lies within half a unit of the rounded mantissa *)
  assert (Zpos m * 2 ^ k - h <= Zpos mc * Zpos m2
          <= Zpos m * 2 ^ k + h) as Hnear by lia.
  set (t := 2 ^ 49 * u).
  assert (2 ^ k < t) as Hkt.
  { assert (Zpos mc * Zpos m2 < 2 ^ 53 * (2 ^ 32 * u)).
    { rewrite Em2.
      apply Z.mul_lt_mono_nonneg; try lia.
      apply Z.mul_lt_mono_pos_r; lia. }
    assert (2 ^ 52 * 2 ^ k <= Zpos m * 2 ^ k)
        by (apply Z.mul_le_mono_nonneg_r; lia).
    unfold t. lia. }
  assert (k < 49 - e2) as Hexp.
  { unfold t, u in Hkt. rewrite <- Z.pow_add_r in Hkt by lia.
    apply Z.pow_lt_mono_r_iff in Hkt; lia. }
  unfold int_of_float.
  replace (0 <=? -49 + e2 + k) with false by (symmetry; apply Z.leb_gt; lia).
  cbn [cond_neg]. f_equal.
  set (s := 2 ^ (- (-49 + e2 + k))).
  assert (0 < s) as Hs by (apply Z.pow_pos_nonneg; lia).
  assert (s * 2 ^ k = t) as Est.
  { unfold s, t, u. rewrite <- !Z.pow_add_r by lia. f_equal. lia. }
  assert (2 ^ 15 <= s) as Hsbig.
  { assert (Zpos mc * Zpos m2 < 2 ^ 53 * (2 ^ 32 * u)).
    { rewrite Em2.
      apply Z.mul_lt_mono_nonneg; try lia.
      apply Z.mul_lt_mono_pos_r; lia. }
    assert (2 ^ 52 * 2 ^ k <= Zpos m * 2 ^ k)
        by (apply Z.mul_le_mono_nonneg_r; lia).
    assert (2 ^ k * 2 ^ 15 <= s * 2 ^ k); [|nia].
    rewrite Est. unfold t. lia. }
  pose proof (Z.div_mod (N * dpi) D ltac:(lia)) as Hq.
  pose proof (Z.mod_pos_bound (N * dpi) D ltac:(lia)) as Hj.
  set (q := N * dpi / D) in *. set (j := (N * dpi) mod D) in *.
  (* D * P * t = (q * D + j) * t - dpi * u * d *)
  assert (D * (Zpos mc * Zpos m2) = (D * q + j) * t - dpi * u * d) as HP.
  { rewrite Em2, <- Hq. unfold t, d. ring. }
  assert (0 <= dpi * u * d) as Hdn
      by (apply Z.mul_nonneg_nonneg; [apply Z.mul_nonneg_nonneg|]; lia).
  symmetry. apply Z.div_unique with (r := Zpos m - q * s).
  2: ring.
  left. split.
  - (* lower bound *)
    assert (~ Zpos m <= q * s - 1); [|lia].
    intros Hlow.
    assert (Zpos m * 2 ^ k <= q * t - 2 ^ k) as Hlow'.
    { rewrite <- Est.
      replace (q * (s * 2 ^ k) - 2 ^ k) with ((q * s - 1) * 2 ^ k) by ring.
      apply Z.mul_le_mono_nonneg_r; lia. }
    assert (j * t + D * h <= dpi * u * d) as Hbad.
    { assert (D * (Zpos mc * Zpos m2) <= D * (q * t - h)) as Hle
          by (apply Z.mul_le_mono_nonneg_l; lia).
      rewrite HP in Hle. lia. }
    destruct (Z.eq_dec j 0) as [Ej|Ej].
    + (* the exact value is an integer *)
      rewrite Ej in Hbad. 
      assert (Zpos mc * Zpos m2 < (2 ^ 54 + 1) * h) as Hup.
      { assert (Zpos m * 2 ^ k < 2 ^ 53 * 2 ^ k)
            by (apply Z.mul_lt_mono_pos_r; lia).
        lia. }
      assert (D * (Zpos mc * Zpos m2) < (2 ^ 54 + 1) * (dpi * u * d)) as Hc.
      { apply Z.lt_le_trans with ((2 ^ 54 + 1) * (D * h)).
        - replace ((2 ^ 54 + 1) * (D * h)) with (D * ((2 ^ 54 + 1) * h))
            by ring.
          apply Z.mul_lt_mono_pos_l; lia.
        - apply Z.mul_le_mono_nonneg_l; lia. }
      rewrite Em2 in Hc. fold u in Hc.
      assert ((D * Zpos mc) * (dpi * u) < (d * (2 ^ 54 + 1)) * (dpi * u))
        as Hc' by lia.
      apply Z.mul_lt_mono_pos_r in Hc'; [lia|].
      apply Z.mul_pos_pos; lia.
    + assert (1 * t <= j * t)
          by (apply Z.mul_le_mono_nonneg_r; unfold t; lia).
      assert (dpi * u * d < t); [|lia].
      unfold t. replace (dpi * u * d) with ((d * dpi) * u) by ring.
      apply Z.mul_lt_mono_pos_r; [lia|].
      apply Z.le_lt_trans with (d * 2 ^ 32); [|lia].
      apply Z.mul_le_mono_nonneg_l; lia.
  - (* upper bound *)
    assert (Zpos m < (q + 1) * s); [|lia].
    assert (D * (Zpos m * 2 ^ k) < D * ((q + 1) * t)) as Hup.
    { assert (D * (Zpos m * 2 ^ k) <= D * (Zpos mc * Zpos m2 + h))
          by (apply Z.mul_le_mono_nonneg_l; lia).
      assert (j * t <= (D - 1) * t)
          by (apply Z.mul_le_mono_nonneg_r; unfold t; lia).
      assert (D * h < t).
      { rewrite <- Est, Ek.
        assert (D * h < 2 ^ 16 * h) by (apply Z.mul_lt_mono_pos_r; lia).
        assert (2 ^ 15 * (2 * h) <= s * (2 * h))
            by (apply Z.mul_le_mono_nonneg_r; lia).
        lia. }
      replace (D * (Zpos mc * Zpos m2 + h))
        with (D * (Zpos mc * Zpos m2) + D * h) in * by ring.
      rewrite HP in *. lia. }
    apply Z.mul_lt_mono_pos_l in Hup; [|lia].
    rewrite <- Est in Hup.
    replace ((q + 1) * (s * 2 ^ k)) with (((q + 1) * s) * 2 ^ k) in Hup by ring.
    apply Z.mul_lt_mono_pos_r in Hup; lia.
Qed.

End PaperSizes.

(** X10. For a density between 1 and [2^32] dots per inch the float
    products [8.27 * dpi], [11.69 * dpi] and [8.5 * dpi] truncate to the
    exact [827 * dpi // 100], [1169 * dpi // 100] and [17 * dpi // 2]: the
    sheet of a paper size loses no pixel to rounding. Every paper other
    than [A4] is taken as Letter. *)
Theorem paper_size_exact :
  forall (paper : string) (dpi : Z),
    1 <= dpi < 2 ^ 32 ->
    paper_size paper dpi
    = OK (if String.eqb paper "A4"
          then (827 * dpi / 100, 1169 * dpi / 100)
          else (17 * dpi / 2, 11 * dpi)).
Proof.
  intros paper dpi Hdpi. unfold paper_size.
  pose proof (trunc_product 4655596114794250 827 100 dpi
                ltac:(lia) ltac:(lia) ltac:(lia) ltac:(lia) ltac:(lia) Hdpi)
    as Hw.
  pose proof (trunc_product 6580884955495137 1169 100 dpi
                ltac:(lia) ltac:(lia) ltac:(lia) ltac:(lia) ltac:(lia) Hdpi)
    as Hh.
  pose proof (trunc_product 4785074604081152 17 2 dpi
                ltac:(lia) ltac:(lia) ltac:(lia) ltac:(lia) ltac:(lia) Hdpi)
    as Hl.
  fold f8_27 in Hw. fold f11_69 in Hh. fold f8_5 in Hl.
  destruct (String.eqb paper "A4").
  - destruct (float_mul_int f8_27 dpi) as [x|e]; [|discriminate].
    cbn [bind] in Hw |- *. rewrite Hw. cbn [bind].
    destruct (float_mul_int f11_69 dpi) as [y|e]; [|discriminate].
    cbn [bind] in Hh |- *. rewrite Hh. reflexivity.
  - destruct (float_mul_int f8_5 dpi) as [x|e]; [|discriminate].
    cbn [bind] in Hl |- *. rewrite Hl. reflexivity.
Qed.

Lemma paper_size_exact_witness :
  paper_size "A4" 300 = OK (2481, 3507) /\
  paper_size "Letter" 300 = OK (2550, 3300).
Proof.
  split.
  - apply (paper_size_exact "A4" 300). lia.
  - apply (paper_size_exact "Letter" 300). lia.
Defined.

(* ===================================================================== *)
(** * Further properties: the processing loop                            *)
(* ===================================================================== *)

Section Batch.

Variables (rs : resampler) (mode : string) (no_upscale : bool)
          (interp : resample_filter) (bg_rgb : color)
          (ls_mode : string) (target_px : Z)
          (tw th : Z) (fit_mode : string).





End Batch.

Section Loop.

Variables (rs : resampler) (mode : string) (no_upscale : bool)
          (interp : resample_filter) (bg_rgb : color)
          (ls_mode : string) (target_px : Z)
          (tw th : Z) (fit_mode : string).


End Loop.








(* ===================================================================== *)
(** * Further properties: the names of the ZIP entries                   *)
(* ===================================================================== *)

Section ZipNames.

Lemma all_digits_app (a b : string) :
  all_digits (a ++ b) = all_digits a && all_digits b.
Proof.
  induction a as [|c a IH]; [reflexivity|].
  cbn [append all_digits]. now rewrite IH, andb_assoc.
Qed.

Lemma all_digits_zeros (n : nat) : all_digits (zeros n) = true.
Proof. induction n as [|n IH]; [reflexivity | exact IH]. Qed.

Lemma all_digits_uint (d : Decimal.uint) :
  all_digits (NilEmpty.string_of_uint d) = true.
Proof. induction d; cbn [NilEmpty.string_of_uint all_digits]; auto. Qed.

Lemma str_of_nat_digits (n : Z) : all_digits (str_of_nat n) = true.
Proof.
  unfold str_of_nat, NilZero.string_of_uint.
  destruct (N.to_uint (Z.to_N n)); try apply all_digits_uint; reflexivity.
Qed.

Lemma number_of_zeros (n : nat) (s : string) :
  number_of (zeros n ++ s) = number_of s.
Proof.
  induction n as [|n IH]; [reflexivity|].
  cbn [zeros append]. unfold number_of in *.
  cbn [NilEmpty.uint_of_string]. rewrite <- IH.
  destruct (NilEmpty.uint_of_string (zeros n ++ s)); reflexivity.
Qed.

Lemma number_of_str (n : Z) : number_of (str_of_nat n) = Some (Z.to_N n).
Proof.
  unfold str_of_nat, number_of.
  assert (N.to_uint (Z.to_N n) <> Decimal.Nil) as Hne.
  { destruct (Z.to_N n);
      [discriminate | apply DecimalPos.Unsigned.to_uint_nonnil]. }
  replace (NilZero.string_of_uint (N.to_uint (Z.to_N n)))
    with (NilEmpty.string_of_uint (N.to_uint (Z.to_N n)))
    by (destruct (N.to_uint (Z.to_N n)); [contradiction | reflexivity ..]).
  rewrite NilEmpty.usu. cbn [option_map].
  now rewrite DecimalN.Unsigned.of_to.
Qed.

Lemma format_03d_digits (n : Z) :
  0 <= n -> all_digits (format_03d n) = true.
Proof.
  intros Hn. unfold format_03d.
  replace (n <? 0) with false by (symmetry; apply Z.ltb_ge; lia).
  now rewrite all_digits_app, all_digits_zeros, str_of_nat_digits.
Qed.

Lemma format_03d_inj (n m : Z) :
  0 <= n -> 0 <= m -> format_03d n = format_03d m -> n = m.
Proof.
  intros Hn Hm E. unfold format_03d in E.
  replace (n <? 0) with false in E by (symmetry; apply Z.ltb_ge; lia).
  replace (m <? 0) with false in E by (symmetry; apply Z.ltb_ge; lia).
  apply (f_equal number_of) in E.
  rewrite !number_of_zeros, !number_of_str in E.
  injection E as E. lia.
Qed.

(** Digits up to the first underscore. *)
Lemma digits_then_underscore (a b r1 r2 : string) :
  all_digits a = true -> all_digits b = true ->
  a ++ String "_" r1 = b ++ String "_" r2 -> a = b.
Proof.
  revert b. induction a as [|c a IH]; intros [|d b] Ha Hb E;
    cbn [append all_digits] in *.
  - reflexivity.
  - injection E as <- _. discriminate.
  - injection E as -> _. discriminate.
  - injection E as -> E.
    apply andb_true_iff in Ha, Hb. f_equal. now apply IH.
Qed.

Lemma out_name_index (i j : Z) (p q : ProcessedImage) :
  0 <= i -> 0 <= j -> out_name i p = out_name j q -> i = j.
Proof.
  intros Hi Hj E. unfold out_name in E.
  apply format_03d_inj; try assumption.
  eapply digits_then_underscore; [| | exact E];
    now apply format_03d_digits.
Qed.

Lemma enumerate_from_cons {A : Type} (start : Z) (x : A) (l : list A) :
  enumerate_from start (x :: l) = (start, x) :: enumerate_from (start + 1) l.
Proof.
  unfold enumerate_from. cbn [List.length seq map combine].
  rewrite Z.add_0_r. f_equal. f_equal.
  rewrite <- seq_shift, map_map. apply map_ext. intros i. lia.
Qed.

Lemma enumerate_from_index {A : Type} (start : Z) (l : list A) (p : Z * A) :
  In p (enumerate_from start l) -> start <= fst p.
Proof.
  revert start. induction l as [|x l IH]; intros start H; [contradiction|].
  rewrite enumerate_from_cons in H. destruct H as [<- | H]; [simpl; lia|].
  apply IH in H. lia.
Qed.

Lemma names_distinct_from (start : Z) (l : list ProcessedImage) :
  0 <= start ->
  NoDup (map (fun p => out_name (fst p) (snd p)) (enumerate_from start l)).
Proof.
  revert start. induction l as [|x l IH]; intros start Hs.
  - constructor.
  - rewrite enumerate_from_cons. cbn [map fst snd]. constructor.
    + intros Hin. apply in_map_iff in Hin. destruct Hin as (p & E & Hp).
      apply enumerate_from_index in Hp.
      apply out_name_index in E; lia.
    + apply IH. lia.
Qed.

End ZipNames.

(** X13. The archive gets one entry for each processed image, and no two
    entries have the same name, whatever the names of the uploaded files
    are: the index in front tells them apart. *)
Theorem zip_names_distinct :
  forall processed : list ProcessedImage,
    List.length (zip_names processed) = List.length processed /\
    NoDup (zip_names processed).
Proof.
  intros processed. split.
  - unfold zip_names, enumerate_from.
    now rewrite length_map, length_combine, length_map, length_seq, Nat.min_id.
  - apply names_distinct_from. lia.
Qed.

Lemma rsplit1_go_none (sep : ascii) (s : string) :
  has_char sep s = false -> rsplit1_go sep s = None.
Proof.
  induction s as [|a s IH]; [reflexivity|]. cbn [has_char rsplit1_go].
  intros H. apply orb_false_iff in H. destruct H as [Ha Hs].
  now rewrite IH, Ha.
Qed.

Lemma rsplit1_go_last (sep : ascii) (b e : string) :
  has_char sep e = false ->
  rsplit1_go sep (b ++ String sep e) = Some (b, e).
Proof.
  intros He. induction b as [|a b IH]; cbn [append rsplit1_go].
  - now rewrite rsplit1_go_none, Ascii.eqb_refl.
  - now rewrite IH.
Qed.

(** X14. The name of an entry is the index, written with at least three
    digits, an underscore, the file name without its last extension (the
    text from the last dot on) and [.jpg]; a file name without a dot is
    kept whole. *)
Theorem out_name_replaces_extension :
  forall (idx : Z) (item : ProcessedImage),
    (has_char "." (name item) = false ->
     out_name idx item = format_03d idx ++ "_" ++ name item ++ ".jpg") /\
    (forall b e,
        name item = b ++ "." ++ e -> has_char "." e = false ->
        out_name idx item = format_03d idx ++ "_" ++ b ++ ".jpg").
Proof.
  intros idx item. unfold out_name, rsplit1. split.
  - intros H. now rewrite rsplit1_go_none.
  - intros b e -> He. cbn [append]. now rewrite rsplit1_go_last.
Qed.

Lemma out_name_replaces_extension_witness :
  out_name 7 (mkProcessed "gel.v2.tif" (10, 10) (plain 10 10 white) (10, 10)
                one)
  = "007_gel.v2.jpg".
Proof.
  apply (proj2 (out_name_replaces_extension 7
                  (mkProcessed "gel.v2.tif" (10, 10) (plain 10 10 white)
                     (10, 10) one)) "gel.v2" "tif");
    reflexivity.
Defined.

(* ===================================================================== *)
(** * Further properties: the contact sheet                              *)
(* ===================================================================== *)

(** The caption band leaves the width of an image and adds its height. *)
Lemma draw_caption_size (font : Font) (img : Image) (text : string)
    (font_size : Z) (c : color) (bg : option color) :
  proper img -> 0 <= snd (text_extent font text) ->
  exists out,
    draw_caption font img text font_size c bg 6 = OK out /\
    width out = width img /\
    height out = height img + caption_band font text.
Proof.
  intros [Hw Hh] Hext. unfold draw_caption, caption_band.
  destruct (String.eqb text EmptyString).
  - exists img. split; [reflexivity|]. lia.
  - destruct (text_extent font text) as [tw th]. cbn [snd] in Hext.
    unfold size. rewrite Image_new_run by lia. cbn [bind].
    eexists. split; [reflexivity|]. cbn [width height Image_paste snd]. lia.
Qed.

(** X15. For images of at least one pixel a side and a font whose texts
    have no negative height, the images entering the grid are computed,
    one for each processed image in order; each has the width of its
    image, and its height plus, with captions on and a non-empty name,
    the height of the text and twice the padding of 6. *)
Theorem captions_keep_widths :
  forall (font : Font) (processed : list ProcessedImage)
         (show_caption : bool) (caption_font : Z),
    Forall (fun item => proper (out_img item)) processed ->
    (forall text, 0 <= snd (text_extent font text)) ->
    exists imgs,
      imgs_for_grid font processed show_caption caption_font = OK imgs /\
      map width imgs = map (fun item => width (out_img item)) processed /\
      map height imgs
      = map (fun item => height (out_img item)
                         + (if show_caption
                            then caption_band font (name item) else 0))
          processed.
Proof.
  intros font processed show_caption caption_font Hall Hext.
  induction Hall as [|item tl Hitem _ IH].
  - exists []. repeat split.
  - destruct IH as (rest & Hrest & Hws & Hhs).
    cbn [imgs_for_grid map]. rewrite Hrest. destruct show_caption.
    + destruct (draw_caption_size font (out_img item) (name item)
                  caption_font black (Some white) Hitem (Hext _))
        as (out & Ho & Ew & Eh).
      rewrite Ho. cbn [bind]. eexists. split; [reflexivity|].
      cbn [map]. now rewrite Ew, Eh, Hws, Hhs.
    + cbn [bind]. eexists. split; [reflexivity|].
      cbn [map]. now rewrite Hws, Hhs, Z.add_0_r.
Qed.

Lemma captions_keep_widths_witness :
  exists imgs,
    imgs_for_grid mono_font
      [mkProcessed "a.png" (10, 10) (plain 300 200 white) (300, 200) one;
       mkProcessed "" (10, 10) (plain 100 100 white) (100, 100) one]
      true 14 = OK imgs /\
    map width imgs = [300; 100] /\
    map height imgs = [223; 100].
Proof.
  apply (captions_keep_widths mono_font
           [mkProcessed "a.png" (10, 10) (plain 300 200 white) (300, 200) one;
            mkProcessed "" (10, 10) (plain 100 100 white) (100, 100) one]
           true 14).
  - repeat constructor; simpl; lia.
  - intros text. simpl. lia.
Defined.

Section Compositor.

Variable place : Z * Image -> Z * Z.





End Compositor.

Section SheetRuns.

Variables (imgs : list Image) (cols grid_gap margin : Z)
          (fixed : option (Z * Z)) (bg_rgb : color).
Hypothesis Hne : imgs <> [].
Hypothesis Hall : Forall proper imgs.
Hypothesis Hlen : Z.of_nat (List.length imgs) < 2 ^ 52.
Hypothesis Hcols : 1 <= cols < 2 ^ 53.
Hypothesis Hgap : 0 <= grid_gap.
Hypothesis Hmargin : 0 <= margin.
Hypothesis Hfixed : forall W H, fixed = Some (W, H) -> 0 <= W /\ 0 <= H.


End SheetRuns.



Section Placement.

Variables (imgs : list Image) (cols grid_gap margin cw ch : Z).
Hypothesis Hall : Forall proper imgs.
Hypothesis Hcols : 1 <= cols.
Hypothesis Hgap : 0 <= grid_gap.
Hypothesis Hmargin : 0 <= margin.
Hypothesis Mw : is_max (map width imgs) cw.
Hypothesis Mh : is_max (map height imgs) ch.





End Placement.







